(** * OpenPlayground: the project gallery of [src/js/app.js]

    A shallow embedding of the filtering, sorting and pagination logic of
    the gallery, of its event handlers and of its start-up barrier.

    Conventions of the model.
    - A JavaScript string is a [string]: a sequence of code units below 256
      (the Latin-1 range), on which [toLowerCase] is the Unicode mapping.
    - A JavaScript array of project records is an object with an identity:
      it lives in a heap [gmap loc (list ProjectRecord)] and variables hold
      its location, so that in-place operations ([sort], [reverse]) and
      aliasing are visible.
    - A plain object is the finite map of its own properties, read through
      what it inherits from [Object.prototype].
    - Numbers are integers of [Z]; the divisions the code performs are on
      array lengths, far below 2^53, where the floating point quotient
      followed by [Math.ceil] is the exact ceiling. *)

From Stdlib Require Import Ascii.
From stdpp Require Import base numbers list strings gmap sorting.

Local Open Scope Z_scope.

(** ** Strings *)

(** [String.prototype.toLowerCase] on one code unit of the Latin-1 range:
    A-Z, and the accented capitals U+00C0-U+00DE except the multiplication
    sign U+00D7, move up by 32. *)
Definition lowerUnit (c : ascii) : ascii :=
  let n := N_of_ascii c in
  if ((65 <=? n)%N && (n <=? 90)%N)
     || ((192 <=? n)%N && (n <=? 222)%N && negb (n =? 215)%N)
  then ascii_of_N (n + 32) else c.

Fixpoint toLowerCase (s : string) : string :=
  match s with
  | EmptyString => EmptyString
  | String c s' => String (lowerUnit c) (toLowerCase s')
  end.

Fixpoint startsWith (s p : string) : bool :=
  match p, s with
  | EmptyString, _ => true
  | String _ _, EmptyString => false
  | String b p', String a s' => bool_decide (a = b) && startsWith s' p'
  end.

(** [String.prototype.includes]: some suffix of [s] starts with [sub]. *)
Fixpoint includes (s sub : string) : bool :=
  startsWith s sub ||
  match s with
  | EmptyString => false
  | String _ s' => includes s' sub
  end.

(** The declarative reading of "contains as a substring". *)
Definition substring_of (sub s : string) : Prop :=
  ∃ pre post : string, s = (pre +:+ sub +:+ post)%string.

(** ** Project records *)

(** One element of [projects.json]. A field the code tests for presence
    ([category], [coverClass], [coverStyle]) is an [option]. *)
Record ProjectRecord := {
  title : string;
  description : string;
  category : option string;
  tech : list string;
  link : string;
  icon : string;
  coverClass : option string;
  coverStyle : option string
}.

(** Truthiness of an optional string: absent and empty are both falsy. *)
Definition truthy (o : option string) : option string :=
  match o with
  | Some s => if bool_decide (s = "") then None else Some s
  | None => None
  end.

(** [project.category ? project.category.toLowerCase() : fallback] *)
Definition categoryOr (fallback : string) (p : ProjectRecord) : string :=
  match truthy (category p) with
  | Some c => toLowerCase c
  | None => fallback
  end.

(** ** The heap of arrays *)

Definition loc := positive.
Abbreviation heap := (gmap loc (list ProjectRecord)).

(** Reading an array through a reference. *)
Definition deref (h : heap) (l : loc) : list ProjectRecord :=
  default [] (h !! l).

(** A new array object: a location that no live array uses. *)
Definition alloc (h : heap) (v : list ProjectRecord) : loc * heap :=
  let l := fresh (dom h) in (l, <[l := v]> h).

(** ** The visibility engine *)

Module Engine.

(** Modelled from the spec: the category of a record as the missing engine
    compares it, "absent/empty treated as unknown". *)
Definition recordCategory (p : ProjectRecord) : string :=
  default "unknown" (truthy (category p)).

(** Modelled from the spec: the state of the class
    [ProjectVisibilityEngine] of [core/projectVisibilityEngine.js], which
    [app.js] imports and which is missing from the sources. It keeps the
    record sequence it was constructed with (by reference) and the
    EngineState [searchQuery], [category]. *)
Record t := {
  projects : loc;
  searchQuery : string;
  category : string
}.

(** Modelled from the spec: [construct(records)] of the missing engine,
    "stores the full record sequence; initializes EngineState to
    defaults" (empty search text, category "all"). *)
Definition construct (records : loc) : t :=
  {| projects := records; searchQuery := ""; category := "all" |}.

(** Modelled from the spec: [setSearchQuery(text)] of the missing engine,
    "sets searchQuery to text", without trimming. *)
Definition setSearchQuery (text : string) (e : t) : t :=
  {| projects := projects e; searchQuery := text; category := category e |}.

(** Modelled from the spec: [setCategory(category)] of the missing engine,
    "sets category to the given token verbatim". *)
Definition setCategory (c : string) (e : t) : t :=
  {| projects := projects e; searchQuery := searchQuery e; category := c |}.

(** Modelled from the spec: [reset()] of the missing engine, "restores
    searchQuery to empty string and category to all". *)
Definition reset (e : t) : t :=
  {| projects := projects e; searchQuery := ""; category := "all" |}.

(** Modelled from the spec: the category predicate of the missing engine,
    [category == "all"] or
    [lowercase(record.category) == lowercase(category)]. *)
Definition categoryMatches (e : t) (p : ProjectRecord) : bool :=
  bool_decide (category e = "all")
  || bool_decide (toLowerCase (recordCategory p) = toLowerCase (category e)).

(** Modelled from the spec: the search predicate of the missing engine,
    [searchQuery] empty or [lowercase(record.title)] containing
    [lowercase(searchQuery)]; the title only. *)
Definition searchMatches (e : t) (p : ProjectRecord) : bool :=
  bool_decide (searchQuery e = "")
  || includes (toLowerCase (title p)) (toLowerCase (searchQuery e)).

(** Modelled from the spec: [getVisibleProjects()] of the missing engine,
    the records of the store that pass both predicates, in store order;
    the caller receives them in a new array. *)
Definition getVisibleProjects (h : heap) (e : t) : list ProjectRecord :=
  filter (λ p, categoryMatches e p && searchMatches e p)
         (deref h (projects e)).

(** The mutators the UI drives the engine with. *)
Inductive call :=
| SetSearchQuery (text : string)
| SetCategory (c : string).

Definition perform (e : t) (c : call) : t :=
  match c with
  | SetSearchQuery text => setSearchQuery text e
  | SetCategory c => setCategory c e
  end.

Definition performAll (cs : list call) (e : t) : t := foldl perform e cs.

End Engine.

(** ** The host's collation *)

(** [String.prototype.localeCompare] is implementation-defined. What the
    language requires of it is kept: its sign is antisymmetric and the order
    it induces is transitive, which makes every comparator built from it a
    consistent comparator for [Array.prototype.sort]. *)
Class Collator := {
  localeCompare : string → string → Z;
  localeCompare_sgn a b : Z.sgn (localeCompare b a) = - Z.sgn (localeCompare a b);
  localeCompare_trans a b c :
    localeCompare a b <= 0 → localeCompare b c <= 0 → localeCompare a c <= 0
}.

(** ** Arrays *)

(** Placing [x], which came before every element of [l], into the sorted
    [l]: before the first element it does not have to follow. *)
Fixpoint insertSorted {A} (cmp : A → A → Z) (x : A) (l : list A) : list A :=
  match l with
  | [] => [x]
  | y :: l' => if decide (cmp x y <= 0) then x :: l else y :: insertSorted cmp x l'
  end.

(** [Array.prototype.sort(comparefn)] is a stable sort: with a consistent
    comparator its result is the one stable sorted arrangement, whatever
    algorithm the engine runs. Insertion from the right computes it. *)
Definition arraySort {A} (cmp : A → A → Z) (l : list A) : list A :=
  foldr (insertSorted cmp) [] l.

(** The order a comparator stands for: [a] may come before [b]. *)
Definition ordered {A} (cmp : A → A → Z) (a b : A) : Prop := cmp a b <= 0.

(** [Array.prototype.slice(start, end)], with its clamping of both ends. *)
Definition slice {A} (l : list A) (s e : Z) : list A :=
  let len := Z.of_nat (length l) in
  let k := if decide (s < 0) then Z.max (len + s) 0 else Z.min s len in
  let final := if decide (e < 0) then Z.max (len + e) 0 else Z.min e len in
  take (Z.to_nat (final - k)) (drop (Z.to_nat k) l).

(** [Math.ceil(a / b)] for a length [a] and a positive [b]. *)
Definition ceilDiv (a b : Z) : Z := - ((- a) `div` b).

(** ** Plain objects *)

(** The primitive values [updateCategoryCounts] computes: a number, a
    string, or a string that starts with the source text of a built-in
    function. That text, which [Function.prototype.toString] returns, is
    implementation-defined ("function Object() { [native code] }" on V8), so
    it is kept as the name [fn] of the function, followed by the literal
    rest [s]. *)
Inductive Primitive :=
| Num (n : nat)
| Str (s : string)
| SourceThen (fn : string) (s : string).

(** What reading a property of a plain object can give: a primitive, one of
    the built-in functions of [Object.prototype], or [Object.prototype]
    itself. *)
Inductive JsValue :=
| Prim (v : Primitive)
| BuiltinFunction (fn : string)
| ObjectPrototype.

(** The methods every plain object inherits under their own name. *)
Definition objectPrototypeMethods : list string :=
  [ "hasOwnProperty"; "isPrototypeOf"; "propertyIsEnumerable";
    "toLocaleString"; "toString"; "valueOf";
    "__defineGetter__"; "__defineSetter__";
    "__lookupGetter__"; "__lookupSetter__" ].

(** The properties of [Object.prototype], which an object created by [{}]
    inherits: the accessor [__proto__] reads the prototype, [constructor] is
    the function [Object], the others are methods. *)
Definition inherited (k : string) : option JsValue :=
  if decide (k = "__proto__") then Some ObjectPrototype
  else if decide (k = "constructor") then Some (BuiltinFunction "Object")
  else if decide (k ∈ objectPrototypeMethods) then Some (BuiltinFunction k)
  else None.

(** [o[k]] on a plain object whose own properties are [own]: the own
    property, or else the inherited one, or else [undefined] ([None]). *)
Definition getProperty (own : gmap string Primitive) (k : string)
  : option JsValue :=
  match own !! k with
  | Some v => Some (Prim v)
  | None => inherited k
  end.

(** [o[k] = v] for a primitive [v]. The key [__proto__] reaches the setter
    of [Object.prototype], which ignores a value that is neither an object
    nor null; any other key becomes an own property. *)
Definition setProperty (k : string) (v : Primitive) (own : gmap string Primitive)
  : gmap string Primitive :=
  if decide (k = "__proto__") then own else <[k := v]> own.

(** [v || 0]: [undefined], the number 0 and the empty string are falsy;
    functions and objects are truthy, and so is a string that holds the
    source text of a function. *)
Definition orZero (v : option JsValue) : JsValue :=
  match v with
  | None | Some (Prim (Num O)) | Some (Prim (Str EmptyString)) => Prim (Num O)
  | Some v => v
  end.

(** [v + 1]: the sum for a number; for a string the digit is appended; a
    function or an object is first converted to a string, a function to
    its source text and [Object.prototype] to ["[object Object]"]. *)
Definition plusOne (v : JsValue) : Primitive :=
  match v with
  | Prim (Num n) => Num (n + 1)%nat
  | Prim (Str s) => Str (s +:+ "1")
  | Prim (SourceThen fn s) => SourceThen fn (s +:+ "1")
  | BuiltinFunction fn => SourceThen fn "1"
  | ObjectPrototype => Str "[object Object]1"
  end.

(** [n] times the digit 1. *)
Fixpoint ones (n : nat) : string :=
  match n with
  | O => ""
  | S n => String "1" (ones n)
  end.

(** ** The page *)

(** What [.projects-container] shows. *)
Inductive ContainerView :=
| StaticMarkup
| UnableToLoad
| NoProjectsFound
| Cards (items : list ProjectRecord).

(** What [#pagination-controls] shows: nothing, or the buttons drawn for
    [totalPages] pages around the current page. *)
Inductive PaginationView :=
| NoControls
| Controls (totalPages page : Z).

(** A [.filter-btn]: its [data-filter], whether it carries the class
    [active], and the value its label shows between the parentheses once
    counts are written. *)
Record FilterButton := {
  data_filter : string;
  active : bool;
  shownCount : option JsValue
}.

(** The elements the script looks up; an absent element is [None] (or
    [false] where only its presence matters). *)
Record Document := {
  projects_container : option ContainerView;
  pagination_controls : option PaginationView;
  project_search : option string;
  project_sort : option string;
  filter_btns : list FilterButton;
  clear_filters : bool;
  contributors_grid : bool
}.

Definition set_projects_container (v : option ContainerView) (d : Document) :=
  {| projects_container := v; pagination_controls := pagination_controls d;
     project_search := project_search d; project_sort := project_sort d;
     filter_btns := filter_btns d; clear_filters := clear_filters d;
     contributors_grid := contributors_grid d |}.

Definition set_pagination_controls (v : option PaginationView) (d : Document) :=
  {| projects_container := projects_container d; pagination_controls := v;
     project_search := project_search d; project_sort := project_sort d;
     filter_btns := filter_btns d; clear_filters := clear_filters d;
     contributors_grid := contributors_grid d |}.

Definition set_project_search (v : option string) (d : Document) :=
  {| projects_container := projects_container d;
     pagination_controls := pagination_controls d;
     project_search := v; project_sort := project_sort d;
     filter_btns := filter_btns d; clear_filters := clear_filters d;
     contributors_grid := contributors_grid d |}.

Definition set_project_sort (v : option string) (d : Document) :=
  {| projects_container := projects_container d;
     pagination_controls := pagination_controls d;
     project_search := project_search d; project_sort := v;
     filter_btns := filter_btns d; clear_filters := clear_filters d;
     contributors_grid := contributors_grid d |}.

Definition set_filter_btns (v : list FilterButton) (d : Document) :=
  {| projects_container := projects_container d;
     pagination_controls := pagination_controls d;
     project_search := project_search d; project_sort := project_sort d;
     filter_btns := v; clear_filters := clear_filters d;
     contributors_grid := contributors_grid d |}.

(** ** The script's variables *)

(** Number of project cards displayed per page. *)
Definition itemsPerPage : Z := 9.

(** The module-level variables of [app.js], the heap of arrays and the
    document, and three counters that observe the script: the requests
    issued for [projects.json], those issued for the contributors, and the
    calls of [initializeApp]. *)
Record App := mkApp {
  arrays : heap;
  allProjectsData : loc;
  visibilityEngine : option Engine.t;
  currentPage : Z;
  currentCategory : string;
  currentSort : string;
  projectsContainer : bool;
  document : Document;
  projectFetches : nat;
  contributorFetches : nat;
  initializations : nat
}.

Definition set_arrays (v : heap) (a : App) :=
  mkApp v (allProjectsData a) (visibilityEngine a) (currentPage a)
        (currentCategory a) (currentSort a) (projectsContainer a) (document a)
        (projectFetches a) (contributorFetches a) (initializations a).

Definition set_allProjectsData (v : loc) (a : App) :=
  mkApp (arrays a) v (visibilityEngine a) (currentPage a)
        (currentCategory a) (currentSort a) (projectsContainer a) (document a)
        (projectFetches a) (contributorFetches a) (initializations a).

Definition set_visibilityEngine (v : option Engine.t) (a : App) :=
  mkApp (arrays a) (allProjectsData a) v (currentPage a)
        (currentCategory a) (currentSort a) (projectsContainer a) (document a)
        (projectFetches a) (contributorFetches a) (initializations a).

Definition set_currentPage (v : Z) (a : App) :=
  mkApp (arrays a) (allProjectsData a) (visibilityEngine a) v
        (currentCategory a) (currentSort a) (projectsContainer a) (document a)
        (projectFetches a) (contributorFetches a) (initializations a).

Definition set_currentCategory (v : string) (a : App) :=
  mkApp (arrays a) (allProjectsData a) (visibilityEngine a) (currentPage a)
        v (currentSort a) (projectsContainer a) (document a)
        (projectFetches a) (contributorFetches a) (initializations a).

Definition set_currentSort (v : string) (a : App) :=
  mkApp (arrays a) (allProjectsData a) (visibilityEngine a) (currentPage a)
        (currentCategory a) v (projectsContainer a) (document a)
        (projectFetches a) (contributorFetches a) (initializations a).

Definition set_projectsContainer (v : bool) (a : App) :=
  mkApp (arrays a) (allProjectsData a) (visibilityEngine a) (currentPage a)
        (currentCategory a) (currentSort a) v (document a)
        (projectFetches a) (contributorFetches a) (initializations a).

Definition set_document (v : Document) (a : App) :=
  mkApp (arrays a) (allProjectsData a) (visibilityEngine a) (currentPage a)
        (currentCategory a) (currentSort a) (projectsContainer a) v
        (projectFetches a) (contributorFetches a) (initializations a).

Definition set_projectFetches (v : nat) (a : App) :=
  mkApp (arrays a) (allProjectsData a) (visibilityEngine a) (currentPage a)
        (currentCategory a) (currentSort a) (projectsContainer a) (document a)
        v (contributorFetches a) (initializations a).

Definition set_contributorFetches (v : nat) (a : App) :=
  mkApp (arrays a) (allProjectsData a) (visibilityEngine a) (currentPage a)
        (currentCategory a) (currentSort a) (projectsContainer a) (document a)
        (projectFetches a) v (initializations a).

Definition set_initializations (v : nat) (a : App) :=
  mkApp (arrays a) (allProjectsData a) (visibilityEngine a) (currentPage a)
        (currentCategory a) (currentSort a) (projectsContainer a) (document a)
        (projectFetches a) (contributorFetches a) v.

(** The variables as the script declares them, over a document [d]:
    [allProjectsData] is a new empty array. *)
Definition initialApp (d : Document) : App :=
  mkApp {[ 1%positive := [] ]} 1%positive None 1 "all" "default" false d 0 0 0.

(** ** Category counts *)

(** The own properties of the [counts] object of [updateCategoryCounts],
    a plain object: for each project,
    [counts[cat] = (counts[cat] || 0) + 1] with the category normalized to
    lowercase and ["unknown"] for a project without one. *)
Definition categoryCounts (ps : list ProjectRecord) : gmap string Primitive :=
  foldl (λ counts p,
           let cat := categoryOr "unknown" p in
           setProperty cat (plusOne (orZero (getProperty counts cat))) counts)
        ∅ ps.

(** What a filter button is labelled with between the parentheses:
    [allProjectsData.length] for the button [all], [counts[cat] || 0]
    for any other. *)
Definition buttonCount (ps : list ProjectRecord) (b : FilterButton) : JsValue :=
  let cat := toLowerCase (data_filter b) in
  if decide (cat = "all") then Prim (Num (length ps))
  else orZero (getProperty (categoryCounts ps) cat).

Definition updateCategoryCounts (st : App) : App :=
  let ps := deref (arrays st) (allProjectsData st) in
  match ps with
  | [] => st
  | _ :: _ =>
      let relabel b :=
        {| data_filter := data_filter b; active := active b;
           shownCount := Some (buttonCount ps b) |} in
      set_document
        (set_filter_btns (relabel <$> filter_btns (document st)) (document st))
        st
  end.

(** ** Rendering *)

Section Rendering.
Context `{Collator}.

(** The comparator of mode [az]: [(a, b) => a.title.localeCompare(b.title)]. *)
Definition compareAz (a b : ProjectRecord) : Z :=
  localeCompare (title a) (title b).

(** The comparator of mode [za]: [(a, b) => b.title.localeCompare(a.title)]. *)
Definition compareZa (a b : ProjectRecord) : Z :=
  localeCompare (title b) (title a).

(** The [switch (currentSort)] of [renderProjects]: the array at [f] is
    sorted or reversed where it stands; any other mode leaves it alone. *)
Definition sortStep (mode : string) (h : heap) (f : loc) : heap :=
  if decide (mode = "az") then
    <[f := arraySort compareAz (deref h f)]> h
  else if decide (mode = "za") then
    <[f := arraySort compareZa (deref h f)]> h
  else if decide (mode = "newest") then
    <[f := reverse (deref h f)]> h
  else h.

(** The pagination values of [renderProjects]: the slice for page [page]
    and the number of pages, for [perPage] items per page. *)
Definition paginate (items : list ProjectRecord) (perPage page : Z)
  : list ProjectRecord * Z :=
  let totalItems := Z.of_nat (length items) in
  let totalPages := ceilDiv totalItems perPage in
  let start := (page - 1) * perPage in
  (slice items start (start + perPage), totalPages).

(** [renderPagination]: without the container nothing happens; with it the
    controls are cleared and drawn again only for more than one page. *)
Definition renderPagination (totalPages : Z) (st : App) : App :=
  match pagination_controls (document st) with
  | None => st
  | Some _ =>
      let view :=
        if decide (totalPages <= 1) then NoControls
        else Controls totalPages (currentPage st) in
      set_document (set_pagination_controls (Some view) (document st)) st
  end.

(** The array [renderProjects] goes on to sort: a copy of
    [allProjectsData], replaced by the engine's answer when there is an
    engine, and otherwise narrowed by category alone. *)
Definition filterStep (st : App) : loc * heap :=
  let (copy, h0) := alloc (arrays st) (deref (arrays st) (allProjectsData st)) in
  match visibilityEngine st with
  | Some e => alloc h0 (Engine.getVisibleProjects h0 e)
  | None =>
      if decide (currentCategory st ≠ "all") then
        alloc h0 (filter
                    (λ p, categoryOr "" p = toLowerCase (currentCategory st))
                    (deref h0 copy))
      else (copy, h0)
  end.

(** Writing [v] as the content of the projects container. *)
Definition showInContainer (v : ContainerView) (st : App) : App :=
  set_document
    (set_projects_container ((λ _, v) <$> projects_container (document st))
                            (document st))
    st.

Definition renderProjects (st : App) : App :=
  let found := projectsContainer st
               || bool_decide (is_Some (projects_container (document st))) in
  if negb found then st
  else
    let st := set_projectsContainer true st in
    let (filteredProjects, h1) := filterStep st in
    let h2 := sortStep (currentSort st) h1 filteredProjects in
    let (paginatedItems, totalPages) :=
      paginate (deref h2 filteredProjects) itemsPerPage (currentPage st) in
    let st := set_arrays h2 st in
    match paginatedItems with
    | [] => renderPagination 0 (showInContainer NoProjectsFound st)
    | _ :: _ => renderPagination totalPages (showInContainer (Cards paginatedItems) st)
    end.

(** ** Loading the projects *)

(** How the request for [projects.json] settles. *)
Inductive FetchOutcome :=
| FetchRejected
| InvalidJson
| Parsed (data : list ProjectRecord).

(** The call of [fetchProjects]: the request leaves. *)
Definition fetchProjects (st : App) : App :=
  set_projectFetches (S (projectFetches st)) st.

(** The rest of [fetchProjects], once the request has settled. A failure
    lands in the [catch]: the message is written if the container is
    known. *)
Definition fetchProjectsSettled (r : FetchOutcome) (st : App) : App :=
  match r with
  | Parsed data =>
      let (l, h) := alloc (arrays st) data in
      let st := set_allProjectsData l (set_arrays h st) in
      let st := set_visibilityEngine (Some (Engine.construct l)) st in
      updateCategoryCounts (renderProjects st)
  | FetchRejected | InvalidJson =>
      if projectsContainer st then showInContainer UnableToLoad st else st
  end.

(** [fetchContributors] gives up at once without its grid. *)
Definition fetchContributors (st : App) : App :=
  if contributors_grid (document st)
  then set_contributorFetches (S (contributorFetches st)) st
  else st.

(** ** Event handlers *)

(** The [input] listener of the search box. *)
Definition searchInputHandler (st : App) : App :=
  let value := default "" (project_search (document st)) in
  let st := set_visibilityEngine
              (Engine.setSearchQuery value <$> visibilityEngine st) st in
  let st := set_currentPage 1 st in
  renderProjects st.

(** The [change] listener of the sort dropdown. *)
Definition sortChangeHandler (st : App) : App :=
  let st := set_currentSort (default "" (project_sort (document st))) st in
  let st := set_currentPage 1 st in
  renderProjects st.

Definition activate (chosen : nat) (btns : list FilterButton) : list FilterButton :=
  imap (λ i b, {| data_filter := data_filter b;
                  active := bool_decide (i = chosen);
                  shownCount := shownCount b |}) btns.

(** The [click] listener of the filter button [btn], the [i]-th one. *)
Definition filterClickHandler (i : nat) (btn : FilterButton) (st : App) : App :=
  let d := document st in
  let st := set_document (set_filter_btns (activate i (filter_btns d)) d) st in
  let st := set_currentCategory (data_filter btn) st in
  let st := set_visibilityEngine
              (Engine.setCategory (currentCategory st) <$> visibilityEngine st) st in
  let st := set_currentPage 1 st in
  renderProjects st.

(** Position of the first button whose [data-filter] is ["all"]. *)
Definition allBtn (btns : list FilterButton) : option nat :=
  fst <$> list_find (λ b, data_filter b = "all") btns.

Definition deactivateAll (btns : list FilterButton) : list FilterButton :=
  (λ b, {| data_filter := data_filter b; active := false;
           shownCount := shownCount b |}) <$> btns.

(** The [click] listener of the clear-filters button. *)
Definition clearHandler (st : App) : App :=
  let d := document st in
  let d := set_project_search ((λ _, "") <$> project_search d) d in
  let d := set_project_sort ((λ _, "default") <$> project_sort d) d in
  let st := set_currentCategory "all" (set_document d st) in
  let st := set_currentPage 1 st in
  let btns := filter_btns (document st) in
  let btns := match allBtn btns with
              | Some i => activate i btns
              | None => deactivateAll btns
              end in
  let st := set_document (set_filter_btns btns (document st)) st in
  let st := set_visibilityEngine (Engine.reset <$> visibilityEngine st) st in
  renderProjects st.

(** What the user does; each action is followed by the listener bound to
    the element, and is lost when the element does not exist. *)
Inductive UserEvent :=
| TypeSearch (text : string)
| ChooseSort (mode : string)
| ClickFilter (i : nat)
| ClickClear.

Definition dispatch (st : App) (ev : UserEvent) : App :=
  let d := document st in
  match ev with
  | TypeSearch text =>
      match project_search d with
      | Some _ => searchInputHandler (set_document (set_project_search (Some text) d) st)
      | None => st
      end
  | ChooseSort mode =>
      match project_sort d with
      | Some _ => sortChangeHandler (set_document (set_project_sort (Some mode) d) st)
      | None => st
      end
  | ClickFilter i =>
      match filter_btns d !! i with
      | Some btn => filterClickHandler i btn st
      | None => st
      end
  | ClickClear => if clear_filters d then clearHandler st else st
  end.

Definition dispatchAll (evs : list UserEvent) (st : App) : App :=
  foldl dispatch st evs.

(** ** Start-up *)

(** [setupEventListeners], as far as the variables go: the container is
    looked up; the listeners it binds are the cases of [dispatch]. *)
Definition setupEventListeners (st : App) : App :=
  set_projectsContainer
    (bool_decide (is_Some (projects_container (document st)))) st.

Definition initializeApp (st : App) : App :=
  let st := set_initializations (S (initializations st)) st in
  fetchContributors (fetchProjects (setupEventListeners st)).

(** The two start-up triggers. *)
Inductive StartupEvent :=
| ComponentLoaded
| FallbackTimeout.

Definition totalComponents : Z := 6.

(** The page while it starts: the counter of loaded components and the
    application. *)
Record Startup := {
  componentsLoaded : Z;
  app : App
}.

(** The [componentLoaded] listener and the callback of the 3000 ms timer. *)
Definition startupStep (s : Startup) (ev : StartupEvent) : Startup :=
  match ev with
  | ComponentLoaded =>
      let n := componentsLoaded s + 1 in
      {| componentsLoaded := n;
         app := if decide (n = totalComponents) then initializeApp (app s)
                else app s |}
  | FallbackTimeout =>
      {| componentsLoaded := componentsLoaded s;
         app := if decide (componentsLoaded s < totalComponents)
                then initializeApp (app s) else app s |}
  end.

Definition startup (d : Document) : Startup :=
  {| componentsLoaded := 0; app := initialApp d |}.

Definition runStartup (evs : list StartupEvent) (s : Startup) : Startup :=
  foldl startupStep s evs.

End Rendering.


(** A collation to compute with: the order of the code units. *)
Definition codeUnitCompare (a b : string) : Z :=
  match String.compare a b with
  | Lt => -1
  | Eq => 0
  | Gt => 1
  end.

(** It is a consistent comparator. *)
Definition codeUnitCollator : Collator.
Proof.
  refine {| localeCompare := codeUnitCompare |}.
  - intros a b. unfold codeUnitCompare.
    rewrite (String.compare_antisym a b). by destruct (String.compare b a).
  - intros a b c Hab Hbc.
    assert (Hle : ∀ x y, codeUnitCompare x y <= 0 ↔ String.le x y).
    { intros x y. unfold codeUnitCompare, String.le, String.leb.
      destruct (String.compare x y); simpl; split; (done || lia). }
    apply Hle. transitivity b; by apply Hle.
Defined.

(** A collation that, as the Unicode collation algorithm does by default,
    gives no weight to the soft hyphen U+00AD: strings are compared by
    their code units once the soft hyphens are dropped. *)
Fixpoint dropSoftHyphens (s : string) : string :=
  match s with
  | EmptyString => EmptyString
  | String c s' =>
      if (N_of_ascii c =? 173)%N then dropSoftHyphens s'
      else String c (dropSoftHyphens s')
  end.

Definition softHyphenCompare (a b : string) : Z :=
  codeUnitCompare (dropSoftHyphens a) (dropSoftHyphens b).

(** It is a consistent comparator as well. *)
Definition softHyphenCollator : Collator.
Proof.
  refine {| localeCompare := softHyphenCompare |}.
  - intros a b. apply (@localeCompare_sgn codeUnitCollator).
  - intros a b c. apply (@localeCompare_trans codeUnitCollator).
Defined.

(** ** Sample data *)

Definition sampleProject (t : string) (c : option string) : ProjectRecord :=
  {| title := t; description := ""; category := c; tech := []; link := "#";
     icon := "ri-code-line"; coverClass := None; coverStyle := None |}.

(** A page with every element the script looks up and two filter buttons. *)
Definition samplePage : Document :=
  {| projects_container := Some StaticMarkup;
     pagination_controls := Some NoControls;
     project_search := Some "";
     project_sort := Some "default";
     filter_btns := [ {| data_filter := "all"; active := true; shownCount := None |};
                      {| data_filter := "unknown"; active := false; shownCount := None |} ];
     clear_filters := true;
     contributors_grid := true |}.

(** The same page without its [.projects-container]. *)
Definition pageWithoutContainer : Document :=
  set_projects_container None samplePage.

Definition twoProjects : list ProjectRecord :=
  [ sampleProject "Beta" (Some "Web"); sampleProject "Alpha" None ].

(** A heap holding [twoProjects] as the array at location 2. *)
Definition sampleHeap : heap := {[ 2%positive := twoProjects ]}.

(** Two titles that differ by a soft hyphen only, and a heap holding the
    two records as the array at location 2. *)
Definition hyphenated : list ProjectRecord :=
  [ sampleProject "ab" (Some "Web");
    sampleProject (String "a" (String (ascii_of_N 173) "b")) (Some "Web") ].

Definition hyphenHeap : heap := {[ 2%positive := hyphenated ]}.

(** The store of the end-to-end scenario: 12 records, 5 tagged [Web] and 7
    tagged [AI], as the array at location 1. *)
Definition galleryStore : list ProjectRecord :=
  replicate 5 (sampleProject "Site" (Some "Web"))
  ++ replicate 7 (sampleProject "Model" (Some "AI")).

Definition galleryHeap : heap := {[ 1%positive := galleryStore ]}.

Definition twentyProjects : list ProjectRecord :=
  replicate 20 (sampleProject "Demo" (Some "Web")).

(** One project without a category, loaded while no engine exists, and the
    filter button [unknown] chosen. *)
Definition uncategorized : ProjectRecord := sampleProject "Alpha" None.

Definition engineless : App :=
  set_currentCategory "unknown"
    (set_projectsContainer true
       (set_arrays {[ 1%positive := [uncategorized] ]} (initialApp samplePage))).

(** Five components load, the fallback timer fires, the sixth component
    loads. *)
Definition lateComponent : list StartupEvent :=
  replicate 5 ComponentLoaded ++ [FallbackTimeout; ComponentLoaded].

(** ** The declarative predicates of the visible set *)

(** The category predicate, in the words of the specification. *)
Definition categoryPredicate (e : Engine.t) (p : ProjectRecord) : Prop :=
  Engine.category e = "all"
  ∨ toLowerCase (Engine.recordCategory p) = toLowerCase (Engine.category e).

(** The search predicate, in the words of the specification. *)
Definition searchPredicate (e : Engine.t) (p : ProjectRecord) : Prop :=
  Engine.searchQuery e = ""
  ∨ substring_of (toLowerCase (Engine.searchQuery e)) (toLowerCase (title p)).

(** ** Reading the counts *)

(** The number of projects filed under the category [c]: those whose
    category, in lowercase and ["unknown"] when missing, is [c]. *)
Definition filedUnder (c : string) (ps : list ProjectRecord) : nat :=
  length (filter (λ p, categoryOr "unknown" p = c) ps).

(** The number a property of [counts] holds, 0 for a string. *)
Definition numberOf (v : Primitive) : nat :=
  match v with
  | Num n => n
  | Str _ | SourceThen _ _ => O
  end.

(** The sum of the numbers among the own properties of a [counts]
    object. *)
Definition countsTotal (counts : gmap string Primitive) : nat :=
  map_fold (λ _ v total, (numberOf v + total)%nat) 0%nat counts.

(** What the [counts] object holds under the key [c] once [n] projects
    were filed under it: nothing under [__proto__] or when there was none;
    the number for an ordinary key; for a key that names an inherited
    function, the source text of that function followed by [n] digits 1. *)
Definition tallied (c : string) (n : nat) : option Primitive :=
  if decide (c = "__proto__" ∨ n = O) then None
  else match inherited c with
       | Some (BuiltinFunction fn) => Some (SourceThen fn (ones n))
       | _ => Some (Num n)
       end.

(** Whether a record is one the word [unknown] stands for: it has no
    category, or an empty one, or one that reads [unknown] in lowercase. *)
Definition underUnknown (p : ProjectRecord) : bool :=
  match truthy (category p) with
  | None => true
  | Some c => bool_decide (toLowerCase c = "unknown")
  end.

(** [toLowerCase] leaves its own results alone, as a test that can be run
    on each of the 256 code units. *)
Definition lowerChecks (c : ascii) : bool :=
  bool_decide (lowerUnit (lowerUnit c) = lowerUnit c).

(** The gallery of the end-to-end scenario loaded while no engine
    exists. *)
Definition galleryWithoutEngine : App :=
  set_projectsContainer true (set_arrays galleryHeap (initialApp samplePage)).

(** ** Reading a render *)

Section RenderView.
Context `{Collator}.

(** Whether [renderProjects] gets past its container checks: the variable
    holds the element, or the query finds it. *)
Definition containerFound (st : App) : bool :=
  projectsContainer st
  || bool_decide (is_Some (projects_container (document st))).

(** The arrangement the [switch (currentSort)] leaves in an array that held
    [l]. *)
Definition sortItems (mode : string) (l : list ProjectRecord)
  : list ProjectRecord :=
  if decide (mode = "az") then arraySort compareAz l
  else if decide (mode = "za") then arraySort compareZa l
  else if decide (mode = "newest") then reverse l
  else l.

(** The content of [filteredProjects] when [renderProjects] reaches its
    pagination lines: filtered, then sorted. *)
Definition workingArray (st : App) : list ProjectRecord :=
  let st1 := set_projectsContainer true st in
  deref (sortStep (currentSort st) (filterStep st1).2 (filterStep st1).1)
        (filterStep st1).1.

(** What a render writes into the projects container: the empty state for
    an empty page, the cards of the page otherwise. *)
Definition shownCards (st : App) : ContainerView :=
  match (paginate (workingArray st) itemsPerPage (currentPage st)).1 with
  | [] => NoProjectsFound
  | _ :: _ => Cards (paginate (workingArray st) itemsPerPage (currentPage st)).1
  end.

(** What it leaves in the pagination container: [renderPagination(0)] for
    an empty page, [renderPagination(totalPages)] otherwise. *)
Definition shownControls (st : App) : PaginationView :=
  match (paginate (workingArray st) itemsPerPage (currentPage st)).1 with
  | [] => NoControls
  | _ :: _ =>
      let totalPages :=
        (paginate (workingArray st) itemsPerPage (currentPage st)).2 in
      if decide (totalPages <= 1) then NoControls
      else Controls totalPages (currentPage st)
  end.

End RenderView.

(** Whether the element an event happens on exists, so that a listener was
    bound to it. *)
Definition listening (d : Document) (ev : UserEvent) : bool :=
  match ev with
  | TypeSearch _ => bool_decide (is_Some (project_search d))
  | ChooseSort _ => bool_decide (is_Some (project_sort d))
  | ClickFilter i => bool_decide (is_Some (filter_btns d !! i))
  | ClickClear => clear_filters d
  end.


(** Two records that carry the same title. *)
Definition sameTitle : list ProjectRecord :=
  [ sampleProject "Clock" (Some "Web"); sampleProject "Clock" (Some "AI") ].

(** ** The pagination buttons *)

(** What [renderPagination] appends to the pagination container. *)
Inductive PagerItem :=
| PrevButton (disabled : bool)
| PageButton (page : Z) (isActive : bool)
| EllipsisMark
| NextButton (disabled : bool).

Definition maxVisible : Z := 5.

(** [startPage] and [endPage]: the numbered buttons around the current
    page, shifted back when they would run past the last page. *)
Definition pageWindow (totalPages page : Z) : Z * Z :=
  let startPage := Z.max 1 (page - maxVisible `div` 2) in
  let endPage := Z.min totalPages (startPage + maxVisible - 1) in
  let startPage :=
    if decide (endPage - startPage + 1 < maxVisible)
    then Z.max 1 (endPage - maxVisible + 1) else startPage in
  (startPage, endPage).

(** The buttons drawn for [totalPages] pages when the current page is
    [page], in document order. *)
Definition pagerItems (totalPages page : Z) : list PagerItem :=
  let (startPage, endPage) := pageWindow totalPages page in
  [PrevButton (bool_decide (page = 1))]
  ++ (if decide (startPage > 1)
      then PageButton 1 false
           :: (if decide (startPage > 2) then [EllipsisMark] else [])
      else [])
  ++ ((λ i, PageButton i (bool_decide (i = page)))
      <$> seqZ startPage (endPage - startPage + 1))
  ++ (if decide (endPage < totalPages)
      then (if decide (endPage < totalPages - 1) then [EllipsisMark] else [])
           ++ [PageButton totalPages false]
      else [])
  ++ [NextButton (bool_decide (page = totalPages))].

(** The buttons a pagination view stands for. *)
Definition drawnItems (v : PaginationView) : list PagerItem :=
  match v with
  | NoControls => []
  | Controls totalPages page => pagerItems totalPages page
  end.

(** The page numbers that have a button, in document order. *)
Definition listedPages (items : list PagerItem) : list Z :=
  omap (λ item, match item with PageButton i _ => Some i | _ => None end) items.

(** The page numbers whose button carries the class [active]. *)
Definition activePages (items : list PagerItem) : list Z :=
  omap (λ item, match item with PageButton i true => Some i | _ => None end)
       items.

Section Pager.
Context `{Collator}.

(** The [onclick] of a pagination button; a disabled button does not
    react. *)
Definition pagerClick (item : PagerItem) (st : App) : App :=
  match item with
  | PrevButton false => renderProjects (set_currentPage (currentPage st - 1) st)
  | NextButton false => renderProjects (set_currentPage (currentPage st + 1) st)
  | PageButton i _ => renderProjects (set_currentPage i st)
  | PrevButton true | NextButton true | EllipsisMark => st
  end.

(** A click on the [k]-th thing drawn in the pagination container. *)
Definition clickPager (k : nat) (st : App) : App :=
  match pagination_controls (document st) with
  | Some v =>
      match drawnItems v !! k with
      | Some item => pagerClick item st
      | None => st
      end
  | None => st
  end.

(** What happens on the page once the listeners are bound: a user event, a
    click in the pagination container, or the projects request settling. *)
Inductive Interaction :=
| UserDoes (ev : UserEvent)
| PagerClicked (k : nat)
| RequestSettles (r : FetchOutcome).

Definition interact (st : App) (i : Interaction) : App :=
  match i with
  | UserDoes ev => dispatch st ev
  | PagerClicked k => clickPager k st
  | RequestSettles r => fetchProjectsSettled r st
  end.

(** The current page is a page, and controls that are drawn were drawn for
    it, by a render that had its container. *)
Definition pageInRange (st : App) : Prop :=
  1 ≤ currentPage st
  ∧ ∀ totalPages page,
      pagination_controls (document st) = Some (Controls totalPages page) →
      containerFound st = true ∧ page = currentPage st ∧ page ≤ totalPages.

End Pager.

(** ** The life of the page *)

(** Everything that happens on the page: a start-up trigger or an
    interaction. *)
Inductive PageEvent :=
| Starting (ev : StartupEvent)
| Interacting (i : Interaction).

Section Life.
Context `{Collator}.

(** Until [initializeApp] has run no listener is bound and no request is
    under way, so an interaction finds nothing to run. *)
Definition pageStep (s : Startup) (ev : PageEvent) : Startup :=
  match ev with
  | Starting ev => startupStep s ev
  | Interacting i =>
      if decide (initializations (app s) = O) then s
      else {| componentsLoaded := componentsLoaded s;
              app := interact (app s) i |}
  end.

(** The page of the document [d] after the events [evs]. *)
Definition runPage (evs : list PageEvent) (d : Document) : Startup :=
  foldl pageStep (startup d) evs.

(** The store and the engine go together: the store is a live array; an
    engine reads that array; and as long as there is no engine the store
    is the empty array the script starts with. *)
Definition engineReadsStore (st : App) : Prop :=
  is_Some (arrays st !! allProjectsData st)
  ∧ match visibilityEngine st with
    | Some e => Engine.projects e = allProjectsData st
    | None => deref (arrays st) (allProjectsData st) = []
    end.

End Life.

(** The six components load in time, the request brings [twoProjects], and
    the user clicks the filter button [unknown]. *)
Definition unknownChosen : list PageEvent :=
  replicate 6 (Starting ComponentLoaded)
  ++ [ Interacting (RequestSettles (Parsed twoProjects));
       Interacting (UserDoes (ClickFilter 1)) ].

(** ** The highlighted filter button *)

(** Every filter button that carries the class [active] names the current
    category. *)
Definition highlightNamesCategory (st : App) : Prop :=
  ∀ b, b ∈ filter_btns (document st) → active b = true →
       data_filter b = currentCategory st.

(** ** The requests of the start-up *)

(** The requests issued follow the initializations: one for the projects
    each time, one for the contributors each time if their grid exists. *)
Definition fetchesFollow (st : App) : Prop :=
  projectFetches st = initializations st
  ∧ contributorFetches st
    = if contributors_grid (document st) then initializations st else 0%nat.


(** ** The theme *)

(** What the theme code reads and writes: the [data-theme] attribute of the
    document element, the item [theme] of the local storage, the class of
    [#theme-icon] if that element exists, and whether [#toggle-mode-btn], if
    it exists, carries the class [shake]. *)
Record ThemePage := {
  data_theme : option string;
  storedTheme : option string;
  theme_icon : option string;
  toggle_mode_btn : option bool
}.

(** [updateThemeIcon]: the moon for the dark theme, the sun for any other. *)
Definition updateThemeIcon (theme : string) (s : ThemePage) : ThemePage :=
  {| data_theme := data_theme s;
     storedTheme := storedTheme s;
     theme_icon :=
       (λ _, if decide (theme = "dark") then "ri-moon-fill" else "ri-sun-line")
       <$> theme_icon s;
     toggle_mode_btn := toggle_mode_btn s |}.

(** The theme lines of [setupEventListeners]: the saved theme, or [light]
    when nothing (or the empty string) is saved, becomes the attribute. *)
Definition loadTheme (s : ThemePage) : ThemePage :=
  let savedTheme := default "light" (truthy (storedTheme s)) in
  updateThemeIcon savedTheme
    {| data_theme := Some savedTheme; storedTheme := storedTheme s;
       theme_icon := theme_icon s; toggle_mode_btn := toggle_mode_btn s |}.

(** The [click] listener of the toggle button, bound only if the button
    exists: from [light] to [dark], from anything else to [light]; the
    choice is saved and the button shakes. *)
Definition toggleTheme (s : ThemePage) : ThemePage :=
  match toggle_mode_btn s with
  | None => s
  | Some _ =>
      let newTheme :=
        if decide (data_theme s = Some "light") then "dark" else "light" in
      updateThemeIcon newTheme
        {| data_theme := Some newTheme; storedTheme := Some newTheme;
           theme_icon := theme_icon s; toggle_mode_btn := Some true |}
  end.

(** The 500 ms timer of a toggle: the shake ends. *)
Definition shakeEnds (s : ThemePage) : ThemePage :=
  {| data_theme := data_theme s; storedTheme := storedTheme s;
     theme_icon := theme_icon s;
     toggle_mode_btn := (λ _, false) <$> toggle_mode_btn s |}.

(** The icon that goes with the attribute. *)
Definition iconMatches (s : ThemePage) : Prop :=
  theme_icon s
  = (λ _, if decide (data_theme s = Some "dark") then "ri-moon-fill"
          else "ri-sun-line") <$> theme_icon s.

(** ** The mobile menu *)

(** The menu of [#navLinks] and the icon inside [#navToggle]. *)
Record Navbar := {
  navActive : bool;
  navIcon : string
}.

Inductive NavEvent :=
| ToggleMenu
| FollowLink.

(** The listeners bound when both elements exist. *)
Definition navStep (n : Navbar) (ev : NavEvent) : Navbar :=
  match ev with
  | ToggleMenu =>
      let open := negb (navActive n) in
      {| navActive := open;
         navIcon := if open then "ri-close-line" else "ri-menu-3-line" |}
  | FollowLink => {| navActive := false; navIcon := "ri-menu-3-line" |}
  end.

(** ** Capitalizing *)

(** [String.prototype.toUpperCase] on one code unit of the Latin-1 range.
    The sharp s becomes two letters; the micro sign and the y with diaeresis
    have their capitals outside the range, which the model does not
    represent: [None]. *)
Definition upperUnit (c : ascii) : option string :=
  let n := N_of_ascii c in
  if (n =? 223)%N then Some "SS"
  else if (n =? 181)%N || (n =? 255)%N then None
  else if ((97 <=? n)%N && (n <=? 122)%N)
          || ((224 <=? n)%N && (n <=? 254)%N && negb (n =? 247)%N)
  then Some (String (ascii_of_N (n - 32)) "")
  else Some (String c "").

(** [capitalize]: the empty string for a missing or empty one, and
    otherwise the first character in upper case before the rest. *)
Definition capitalize (str : option string) : option string :=
  match truthy str with
  | Some (String c rest) => (λ u, u +:+ rest) <$> upperUnit c
  | Some EmptyString | None => Some ""
  end.

(** What the capital of a code unit satisfies, as a test that can be run
    on each of the 256 code units: the sharp s gives ["SS"]; any other
    capital is one code unit, with the same lowercase form, and is its own
    capital. *)
Definition unitChecks (c : ascii) : bool :=
  match upperUnit c with
  | None => true
  | Some u =>
      if (N_of_ascii c =? 223)%N then bool_decide (u = "SS")
      else match u with
           | String a EmptyString =>
               bool_decide (lowerUnit a = lowerUnit c)
               && bool_decide (upperUnit a = Some (String a ""))
           | _ => false
           end
  end.


(** * Properties *)

(** ** Strings *)

Lemma startsWith_spec s p :
  startsWith s p = true ↔ ∃ post, s = p +:+ post.
Proof.
  revert s. induction p as [|b p IH]; intros s.
  - destruct s; (split; [intros _; by eexists | done]).
  - destruct s as [|a s]; simpl.
    + split; [done | intros [post Hp]; discriminate].
    + rewrite andb_true_iff, bool_decide_eq_true, IH. split.
      * intros [-> [post ->]]. by exists post.
      * intros [post Hp]. injection Hp as -> ->. eauto.
Qed.

Lemma includes_cons a s sub :
  includes (String a s) sub = startsWith (String a s) sub || includes s sub.
Proof. reflexivity. Qed.

Lemma includes_spec s sub :
  includes s sub = true ↔ substring_of sub s.
Proof.
  unfold substring_of. induction s as [|a s IH].
  - change (includes "" sub) with (startsWith "" sub || false).
    rewrite orb_false_r, startsWith_spec. split.
    + intros [post Hp]. by exists "", post.
    + intros ([|c pre] & post & Hp); simpl in Hp; [eauto | discriminate].
  - rewrite includes_cons, orb_true_iff, startsWith_spec, IH. split.
    + intros [[post Hp] | (pre & post & Hp)].
      * by exists "", post.
      * exists (String a pre), post. simpl. by rewrite Hp.
    + intros ([|c pre] & post & Hp); simpl in Hp.
      * left. eauto.
      * right. injection Hp as _ ->. eauto.
Qed.

Lemma toLowerCase_unknown : toLowerCase "unknown" = "unknown".
Proof. reflexivity. Qed.

(** Both ways of reading a missing category as ["unknown"] agree. *)
Lemma categoryOr_unknown p :
  categoryOr "unknown" p = toLowerCase (Engine.recordCategory p).
Proof.
  unfold categoryOr, Engine.recordCategory. by destruct (truthy (category p)).
Qed.

(** ** The visibility engine *)

Lemma categoryMatches_spec e p :
  Engine.categoryMatches e p ↔ categoryPredicate e p.
Proof.
  unfold Engine.categoryMatches, categoryPredicate.
  by rewrite orb_True, !bool_decide_spec.
Qed.

Lemma searchMatches_spec e p :
  Engine.searchMatches e p ↔ searchPredicate e p.
Proof.
  unfold Engine.searchMatches, searchPredicate.
  rewrite orb_True, bool_decide_spec, Is_true_true.
  by rewrite includes_spec.
Qed.

Lemma visible_spec e p :
  Engine.categoryMatches e p && Engine.searchMatches e p
  ↔ categoryPredicate e p ∧ searchPredicate e p.
Proof. by rewrite andb_True, categoryMatches_spec, searchMatches_spec. Qed.

#[global] Instance categoryPredicate_dec e p : Decision (categoryPredicate e p).
Proof. unfold categoryPredicate. apply _. Defined.

#[global] Instance searchPredicate_dec e p : Decision (searchPredicate e p).
Proof.
  refine (cast_if (decide (Engine.searchMatches e p)));
    by rewrite <-searchMatches_spec.
Defined.

(** C1. [getVisibleProjects()] returns exactly the records of the store that
    satisfy the category predicate and the search predicate: it is the
    store filtered by their conjunction, so a record is listed if and only if
    it is in the store and passes both, the store's relative order is kept,
    and when no record passes the answer is the empty sequence. *)
Theorem getVisibleProjects_exact (h : heap) (e : Engine.t) :
  let store := deref h (Engine.projects e) in
  let visible := Engine.getVisibleProjects h e in
  visible = filter (λ p, categoryPredicate e p ∧ searchPredicate e p) store
  ∧ (∀ p, p ∈ visible ↔ p ∈ store ∧ categoryPredicate e p ∧ searchPredicate e p)
  ∧ visible `sublist_of` store
  ∧ ((∀ p, p ∈ store → ¬ (categoryPredicate e p ∧ searchPredicate e p))
     → visible = []).
Proof.
  intros store visible.
  assert (Heq : visible
                = filter (λ p, categoryPredicate e p ∧ searchPredicate e p) store).
  { apply list_filter_iff. intros p. apply visible_spec. }
  split; [done|]. rewrite Heq. split; [|split].
  - intros p. rewrite list_elem_of_filter. tauto.
  - apply sublist_filter.
  - clear Heq visible. clearbody store. intros Hnone.
    induction store as [|p store IH]; [done|].
    rewrite filter_cons_False by (apply Hnone; left).
    apply IH. intros q Hq. apply Hnone. by right.
Qed.

(** A fresh engine lists the whole store. *)
Lemma construct_lists_everything (h : heap) (records : loc) :
  Engine.getVisibleProjects h (Engine.construct records) = deref h records.
Proof.
  unfold Engine.getVisibleProjects. simpl.
  generalize (deref h records). intros l.
  induction l as [|p l IH]; [done|].
  rewrite filter_cons_True; [by rewrite IH | done].
Qed.

(** The mutators keep the reference to the store. *)
Lemma performAll_projects calls e :
  Engine.projects (Engine.performAll calls e) = Engine.projects e.
Proof.
  unfold Engine.performAll.
  induction calls as [|c calls IH] using rev_ind; [done|].
  rewrite foldl_app. simpl. by destruct c.
Qed.

(** The end-to-end scenario: the category [web] shows 5 records, a search
    text that matches nothing shows none and leaves 0 pages, and [reset()]
    shows the 12 again. *)
Example end_to_end_scenario :
  let web := Engine.setCategory "web" (Engine.construct 1%positive) in
  let none := Engine.setSearchQuery "zz-no-match" web in
  length (Engine.getVisibleProjects galleryHeap web) = 5%nat
  ∧ Engine.getVisibleProjects galleryHeap none = []
  ∧ (paginate (Engine.getVisibleProjects galleryHeap none) itemsPerPage 1).2 = 0
  ∧ length (Engine.getVisibleProjects galleryHeap (Engine.reset none)) = 12%nat.
Proof. vm_compute. done. Qed.

(** ** Arrays and the heap *)

Lemma alloc_fresh (h : heap) v : h !! (alloc h v).1 = None.
Proof. unfold alloc. simpl. apply not_elem_of_dom, is_fresh. Qed.

Lemma alloc_lookup (h : heap) v : (alloc h v).2 !! (alloc h v).1 = Some v.
Proof. unfold alloc. simpl. apply lookup_insert_eq. Qed.

Lemma alloc_frame (h : heap) v l :
  is_Some (h !! l) → (alloc h v).2 !! l = h !! l ∧ l ≠ (alloc h v).1.
Proof.
  intros Hl. assert (Hne : (alloc h v).1 ≠ l).
  { intros <-. rewrite alloc_fresh in Hl. by destruct Hl. }
  split; [|done]. unfold alloc in *. simpl in *. by rewrite lookup_insert_ne.
Qed.

Section Properties.
Context `{Collator}.

Lemma sortStep_other mode (h : heap) f l :
  l ≠ f → sortStep mode h f !! l = h !! l.
Proof.
  intros Hne. unfold sortStep.
  repeat case_decide; try done; by rewrite lookup_insert_ne.
Qed.

(** The array handed to the sort step is a new one: the arrays that were
    alive keep their content, and none of them is the new array. *)
Lemma filterStep_frame st l :
  is_Some (arrays st !! l) →
  (filterStep st).2 !! l = arrays st !! l ∧ l ≠ (filterStep st).1.
Proof.
  intros Hl. unfold filterStep.
  destruct (alloc (arrays st) (deref (arrays st) (allProjectsData st)))
    as [copy h0] eqn:Hcopy.
  destruct (alloc_frame (arrays st) (deref (arrays st) (allProjectsData st)) l Hl)
    as [Hh0 Hne0].
  rewrite Hcopy in Hh0, Hne0. simpl in Hh0, Hne0.
  assert (Hl0 : is_Some (h0 !! l)) by (by rewrite Hh0).
  destruct (visibilityEngine st) as [e|].
  - destruct (alloc_frame h0 (Engine.getVisibleProjects h0 e) l Hl0) as [? ?].
    split; [congruence | done].
  - case_decide; [|done].
    match goal with |- context [alloc h0 ?v] =>
      destruct (alloc_frame h0 v l Hl0) as [? ?] end.
    split; [congruence | done].
Qed.

(** With an engine, the array [renderProjects] works on holds the engine's
    answer over the store. *)
Lemma filterStep_engine st e :
  visibilityEngine st = Some e →
  is_Some (arrays st !! Engine.projects e) →
  deref (filterStep st).2 (filterStep st).1
  = Engine.getVisibleProjects (arrays st) e.
Proof.
  intros He Hstore. unfold filterStep.
  destruct (alloc_frame (arrays st) (deref (arrays st) (allProjectsData st))
              (Engine.projects e) Hstore) as [Hsame _].
  destruct (alloc (arrays st) (deref (arrays st) (allProjectsData st)))
    as [copy h0].
  rewrite He. unfold deref at 1. rewrite alloc_lookup. simpl.
  unfold Engine.getVisibleProjects, deref. simpl in Hsame. by rewrite Hsame.
Qed.

(** Without an engine and with a category chosen, it holds the records
    whose category, [""] when missing, is the chosen one; the search text
    plays no part. *)
Lemma filterStep_fallback st :
  visibilityEngine st = None →
  deref (filterStep st).2 (filterStep st).1
  = if decide (currentCategory st ≠ "all")
    then filter (λ p, categoryOr "" p = toLowerCase (currentCategory st))
                (deref (arrays st) (allProjectsData st))
    else deref (arrays st) (allProjectsData st).
Proof.
  intros He. unfold filterStep.
  pose proof (alloc_lookup (arrays st) (deref (arrays st) (allProjectsData st)))
    as Hcopy.
  destruct (alloc (arrays st) (deref (arrays st) (allProjectsData st)))
    as [copy h0].
  rewrite He. simpl in Hcopy. case_decide.
  - unfold deref at 1. rewrite alloc_lookup. simpl.
    unfold deref at 1. by rewrite Hcopy.
  - simpl. unfold deref at 1. by rewrite Hcopy.
Qed.
Ltac render_cases :=
  unfold renderProjects;
  match goal with |- context [negb ?b] => destruct b; cbn [negb]; [|try done] end;
  match goal with |- context [filterStep ?s] =>
    destruct (filterStep s) as [f h1] eqn:Hf end;
  match goal with |- context [paginate ?l ?n ?p] =>
    destruct (paginate l n p) as [[|item items] totalPages] eqn:Hp end;
  unfold renderPagination, showInContainer; simpl;
  match goal with |- context [pagination_controls ?d] =>
    destruct (pagination_controls d); simpl end.

(** Rendering leaves the view variables, the engine, the store reference,
    the counters and the form controls as they are. *)
Lemma renderProjects_vars st :
  currentPage (renderProjects st) = currentPage st
  ∧ currentCategory (renderProjects st) = currentCategory st
  ∧ currentSort (renderProjects st) = currentSort st
  ∧ visibilityEngine (renderProjects st) = visibilityEngine st
  ∧ allProjectsData (renderProjects st) = allProjectsData st
  ∧ projectFetches (renderProjects st) = projectFetches st
  ∧ project_search (document (renderProjects st)) = project_search (document st)
  ∧ project_sort (document (renderProjects st)) = project_sort (document st)
  ∧ filter_btns (document (renderProjects st)) = filter_btns (document st)
  ∧ clear_filters (document (renderProjects st)) = clear_filters (document st).
Proof. render_cases; done. Qed.

(** Rendering changes no array that was alive before it. *)
Lemma renderProjects_frame st l :
  is_Some (arrays st !! l) → arrays (renderProjects st) !! l = arrays st !! l.
Proof.
  intros Hl.
  pose proof (filterStep_frame (set_projectsContainer true st) l Hl) as Hfs.
  render_cases; simpl in Hfs; destruct Hfs as [Hh1 Hne];
    by rewrite sortStep_other.
Qed.

End Properties.

(** ** Pagination *)

Lemma ceilDiv_bounds (a b : Z) :
  0 < b → (ceilDiv a b - 1) * b < a ≤ ceilDiv a b * b.
Proof.
  intros Hb. unfold ceilDiv.
  pose proof (Z.mul_div_le (- a) b Hb).
  pose proof (Z.mul_succ_div_gt (- a) b Hb).
  lia.
Qed.

(** On a page number from 1 on, [slice] takes [perPage] elements after
    dropping the pages before. *)
Lemma slice_page {A} (l : list A) (start len : Z) :
  0 ≤ start → 0 < len →
  slice l start (start + len) = take (Z.to_nat len) (drop (Z.to_nat start) l).
Proof.
  intros Hs Hl. unfold slice.
  rewrite !decide_False by lia.
  destruct (decide (start ≤ Z.of_nat (length l))) as [Hin|Hout].
  - rewrite (Z.min_l start) by done.
    destruct (decide (start + len ≤ Z.of_nat (length l))) as [Hfull|Hpart].
    + rewrite Z.min_l by done. f_equal. lia.
    + rewrite Z.min_r by lia.
      rewrite !take_ge; [done | |]; rewrite length_drop; lia.
  - rewrite !Z.min_r by lia. rewrite Z.sub_diag. simpl.
    rewrite (drop_ge l (Z.to_nat start)) by lia. by rewrite take_nil.
Qed.

(** C2. For a positive page size and a page number from 1 on, [paginate]
    counts [ceil(count / pageSize)] pages (none for no records) and returns
    the records at positions [(pageNumber-1)*pageSize] up to, not including,
    [pageNumber*pageSize], as far as there are records; a page number past
    the last page gives the empty slice. With 9 per page and 20 records
    there are 3 pages, page 1 holds 9 records, page 3 holds 2 and page 4 is
    empty. *)
Theorem paginate_spec (records : list ProjectRecord) (pageSize pageNumber : Z) :
  0 < pageSize → 1 ≤ pageNumber →
  let pageSlice := (paginate records pageSize pageNumber).1 in
  let totalPages := (paginate records pageSize pageNumber).2 in
  let count := Z.of_nat (length records) in
  let start := Z.to_nat ((pageNumber - 1) * pageSize) in
  (totalPages - 1) * pageSize < count ≤ totalPages * pageSize
  ∧ (records = [] → totalPages = 0)
  ∧ pageSlice = take (Z.to_nat pageSize) (drop start records)
  ∧ (∀ i : nat,
       pageSlice !! i
       = if decide (Z.of_nat i < pageSize) then records !! (start + i)%nat
         else None)
  ∧ (totalPages < pageNumber → pageSlice = [])
  ∧ (pageSize = 9 → length records = 20%nat →
     totalPages = 3
     ∧ (pageNumber = 1 → length pageSlice = 9%nat)
     ∧ (pageNumber = 3 → length pageSlice = 2%nat)
     ∧ (pageNumber = 4 → pageSlice = [])).
Proof.
  intros Hsize Hpage pageSlice totalPages count start.
  assert (Hslice : pageSlice = take (Z.to_nat pageSize) (drop start records)).
  { subst pageSlice start. unfold paginate. simpl.
    apply slice_page; nia. }
  assert (Hceil : (totalPages - 1) * pageSize < count ≤ totalPages * pageSize).
  { subst totalPages count. unfold paginate. simpl. by apply ceilDiv_bounds. }
  split; [done|]. split; [|split; [done|]]; [|split; [|split]].
  - intros ->. subst count. simpl in Hceil. nia.
  - intros i. rewrite Hslice. case_decide.
    + rewrite lookup_take_lt by lia. apply lookup_drop.
    + apply lookup_take_ge. lia.
  - intros Hpast. rewrite Hslice.
    rewrite (drop_ge records start); [by rewrite take_nil|].
    subst start count. nia.
  - intros -> Hlen. subst count. rewrite Hlen in Hceil.
    assert (Hthree : totalPages = 3) by lia.
    split; [done|].
    assert (Hl : length pageSlice = (9 `min` (20 - start))%nat).
    { by rewrite Hslice, length_take, length_drop, Hlen. }
    repeat split; intros ->; subst start; simpl in Hl; [done..|].
    by apply nil_length_inv.
Qed.

(** ** Sorting *)

Section Sorting.
Context {A : Type} (cmp : A → A → Z).

Lemma insertSorted_Permutation x l : insertSorted cmp x l ≡ₚ x :: l.
Proof.
  induction l as [|y l IH]; simpl; [done|].
  case_decide; [done|]. rewrite IH. apply Permutation_swap.
Qed.

Lemma arraySort_Permutation l : arraySort cmp l ≡ₚ l.
Proof.
  induction l as [|x l IH]; simpl; [done|].
  by rewrite insertSorted_Permutation, IH.
Qed.

(** A consistent comparator, as [Array.prototype.sort] expects it. *)
Hypothesis cmp_sgn : ∀ a b, Z.sgn (cmp b a) = - Z.sgn (cmp a b).
Hypothesis cmp_trans : ∀ a b c, cmp a b <= 0 → cmp b c <= 0 → cmp a c <= 0.

#[local] Instance ordered_trans : Transitive (ordered cmp).
Proof. intros a b c. apply cmp_trans. Qed.

Lemma insertSorted_Sorted x l :
  Sorted (ordered cmp) l → Sorted (ordered cmp) (insertSorted cmp x l).
Proof.
  induction 1 as [|y l Hl IH Hy]; simpl.
  - by repeat constructor.
  - case_decide as Hxy.
    + by repeat constructor.
    + constructor; [done|].
      assert (Hyx : ordered cmp y x).
      { unfold ordered. specialize (cmp_sgn x y). lia. }
      destruct Hy as [|z l Hyz]; simpl; [by constructor|].
      case_decide; by constructor.
Qed.

Lemma arraySort_Sorted l : Sorted (ordered cmp) (arraySort cmp l).
Proof.
  induction l as [|x l IH]; simpl; [constructor|].
  by apply insertSorted_Sorted.
Qed.

(** Stability: the elements that tie with [a] keep their relative order. *)
Lemma insertSorted_ties a x l :
  Sorted (ordered cmp) l →
  filter (λ b, cmp a b = 0) (insertSorted cmp x l)
  = filter (λ b, cmp a b = 0) (x :: l).
Proof.
  intros Hl. apply Sorted_StronglySorted in Hl; [|apply _].
  induction Hl as [|y l Hl IH Hy]; simpl; [done|].
  case_decide as Hxy; [done|].
  destruct (decide (cmp a x = 0)) as [Hax|Hax].
  - assert (Hay : cmp a y ≠ 0).
    { intros Hay. apply Hxy. apply (cmp_trans x a y); [|lia].
      specialize (cmp_sgn a x). lia. }
    rewrite (filter_cons_False _ y) by done.
    rewrite (filter_cons_True _ x) by done.
    rewrite (filter_cons_False _ y) by done.
    by rewrite IH, filter_cons_True.
  - rewrite (filter_cons_False _ x) by done.
    rewrite !(filter_cons _ y). rewrite IH.
    by rewrite (filter_cons_False _ x).
Qed.

Lemma arraySort_stable a l :
  filter (λ b, cmp a b = 0) (arraySort cmp l) = filter (λ b, cmp a b = 0) l.
Proof.
  induction l as [|x l IH]; simpl; [done|].
  rewrite insertSorted_ties by apply arraySort_Sorted.
  by rewrite !(filter_cons _ x), IH.
Qed.

End Sorting.

Section SortModes.
Context `{Collator}.

Lemma compareAz_sgn a b : Z.sgn (compareAz b a) = - Z.sgn (compareAz a b).
Proof. apply localeCompare_sgn. Qed.

Lemma compareAz_trans a b c :
  compareAz a b <= 0 → compareAz b c <= 0 → compareAz a c <= 0.
Proof. apply localeCompare_trans. Qed.

#[local] Instance ordered_compareAz_trans : Transitive (ordered compareAz).
Proof. intros a b c. apply compareAz_trans. Qed.

Lemma compareZa_sgn a b : Z.sgn (compareZa b a) = - Z.sgn (compareZa a b).
Proof. apply localeCompare_sgn. Qed.

Lemma compareZa_trans a b c :
  compareZa a b <= 0 → compareZa b c <= 0 → compareZa a c <= 0.
Proof. unfold compareZa. eauto using localeCompare_trans. Qed.

Lemma deref_insert (h : heap) f v : deref (<[f := v]> h) f = v.
Proof. unfold deref. by rewrite lookup_insert_eq. Qed.

Lemma deref_Some (h : heap) f v : h !! f = Some v → deref h f = v.
Proof. unfold deref. by intros ->. Qed.

Lemma sortStep_az (h : heap) f :
  deref (sortStep "az" h f) f = arraySort compareAz (deref h f).
Proof. unfold sortStep. simpl. apply deref_insert. Qed.

Lemma sortStep_za (h : heap) f :
  deref (sortStep "za" h f) f = arraySort compareZa (deref h f).
Proof. unfold sortStep. simpl. apply deref_insert. Qed.

Lemma sortStep_newest (h : heap) f :
  deref (sortStep "newest" h f) f = reverse (deref h f).
Proof. unfold sortStep. simpl. apply deref_insert. Qed.

(** Two records of a sequence without repeated titles are the same record
    as soon as their titles are. *)
Lemma title_inj_on (rs : list ProjectRecord) a b :
  NoDup (title <$> rs) → a ∈ rs → b ∈ rs → title a = title b → a = b.
Proof.
  induction rs as [|r rs IH]; simpl; [by intros _ ?%elem_of_nil|].
  rewrite NoDup_cons, !elem_of_cons, list_elem_of_fmap.
  intros [Hr Hrs] [->|Ha] [->|Hb] Hab; [done| | |by apply IH].
  - destruct Hr. eauto.
  - destruct Hr. eauto.
Qed.

(** C5, as the code has it. On a sequence whose titles are pairwise distinct
    and no two of which tie under the collation, mode [az] gives the
    records in ascending title order,
    mode [za] in descending title order, each is exactly the other one
    reversed, and mode [newest] gives the input order reversed. *)
Theorem az_za_reversed (h : heap) (f : loc) (rs : list ProjectRecord) :
  h !! f = Some rs →
  NoDup (title <$> rs) →
  (∀ a b, a ∈ rs → b ∈ rs →
          localeCompare (title a) (title b) = 0 → title a = title b) →
  let az := deref (sortStep "az" h f) f in
  let za := deref (sortStep "za" h f) f in
  az ≡ₚ rs ∧ Sorted (ordered compareAz) az
  ∧ za ≡ₚ rs ∧ Sorted (ordered compareZa) za
  ∧ az = reverse za ∧ za = reverse az
  ∧ deref (sortStep "newest" h f) f = reverse rs.
Proof.
  intros Hf Hdistinct Hapart az za.
  assert (Haz : az = arraySort compareAz rs).
  { subst az. by rewrite sortStep_az, (deref_Some h f rs). }
  assert (Hza : za = arraySort compareZa rs).
  { subst za. by rewrite sortStep_za, (deref_Some h f rs). }
  assert (Hpaz : az ≡ₚ rs) by (rewrite Haz; apply arraySort_Permutation).
  assert (Hpza : za ≡ₚ rs) by (rewrite Hza; apply arraySort_Permutation).
  assert (Hsaz : Sorted (ordered compareAz) az).
  { rewrite Haz.
    apply (arraySort_Sorted compareAz compareAz_sgn). }
  assert (Hsza : Sorted (ordered compareZa) za).
  { rewrite Hza.
    apply (arraySort_Sorted compareZa compareZa_sgn). }
  assert (Hrev : az = reverse za).
  { apply (Sorted_unique_strong (ordered compareAz)).
    - intros a b Ha Hb Hab Hba. rewrite Hpaz in Ha.
      rewrite reverse_Permutation, Hpza in Hb.
      apply (title_inj_on rs); try done. apply Hapart; try done.
      unfold ordered in *. specialize (compareAz_sgn a b).
      unfold compareAz in *. lia.
    - done.
    - by apply (Sorted_reverse (ordered compareZa)) in Hsza.
    - by rewrite reverse_Permutation, Hpaz, Hpza. }
  repeat split; try done.
  - by rewrite Hrev, reverse_involutive.
  - by rewrite sortStep_newest, (deref_Some h f rs).
Qed.

End SortModes.

Section InPlace.
Context `{Collator}.

Lemma filterStep_fresh st : arrays st !! (filterStep st).1 = None.
Proof.
  unfold filterStep.
  pose proof (alloc_fresh (arrays st) (deref (arrays st) (allProjectsData st)))
    as Hcopy.
  destruct (alloc (arrays st) (deref (arrays st) (allProjectsData st)))
    as [copy h0] eqn:Halloc.
  assert (Hh0 : h0 = <[copy := deref (arrays st) (allProjectsData st)]> (arrays st)).
  { unfold alloc in Halloc. by injection Halloc as <- <-. }
  assert (Hnew : ∀ v, arrays st !! (alloc h0 v).1 = None).
  { intros v. pose proof (alloc_fresh h0 v) as Hf. subst h0.
    by apply lookup_insert_None in Hf as [? _]. }
  simpl in Hcopy.
  destruct (visibilityEngine st); [apply Hnew|].
  case_decide; [apply Hnew | done].
Qed.

(** C4, as the code has it. The sort step works where the array stands:
    it returns no new sequence, the array at [f] holds the same records
    rearranged and every other array is left alone; mode [default] (like any
    unknown mode) changes nothing, no comparator being applied. The array
    [renderProjects] sorts is always a new one, never the record store, so
    a render leaves the store, content and order, as it was. *)
Theorem sortStep_in_place (st : App) (mode : string) (h : heap) (f : loc) :
  is_Some (arrays st !! allProjectsData st) →
  is_Some (h !! f) →
  (∀ l, l ≠ f → sortStep mode h f !! l = h !! l)
  ∧ (∃ rs, sortStep mode h f !! f = Some rs ∧ rs ≡ₚ deref h f)
  ∧ sortStep "default" h f = h
  ∧ (mode ≠ "az" → mode ≠ "za" → mode ≠ "newest" → sortStep mode h f = h)
  ∧ (filterStep st).1 ≠ allProjectsData st
  ∧ arrays (renderProjects st) !! allProjectsData st
    = arrays st !! allProjectsData st
  ∧ allProjectsData (renderProjects st) = allProjectsData st.
Proof.
  intros Hstore [rs Hf]. split; [|split; [|split; [|split; [|split; [|split]]]]].
  - intros l Hl. by apply sortStep_other.
  - unfold sortStep. repeat case_decide; rewrite ?lookup_insert_eq.
    + eexists. split; [done|]. apply arraySort_Permutation.
    + eexists. split; [done|]. apply arraySort_Permutation.
    + eexists. split; [done|]. apply reverse_Permutation.
    + exists rs. split; [done|]. by rewrite (deref_Some h f rs).
  - done.
  - intros ???. unfold sortStep. by rewrite !decide_False.
  - intros Heq. rewrite <-Heq, filterStep_fresh in Hstore. by destruct Hstore.
  - by apply renderProjects_frame.
  - apply renderProjects_vars.
Qed.

End InPlace.

(** C4, as stated, fails: the array handed to the sort step is itself
    rearranged. Here the two-element array at location 2 is reversed where it
    stands by mode [newest]. *)
Lemma sortStep_mutates_its_input :
  @sortStep codeUnitCollator "newest" sampleHeap 2%positive !! 2%positive
  ≠ sampleHeap !! 2%positive.
Proof. vm_compute. discriminate. Qed.

(** C5, as stated, fails: titles that are pairwise distinct can still tie
    under the collation. The two titles of [hyphenated] differ by a soft
    hyphen, to which the collation gives no weight; both sorts, being stable,
    leave the two records in input order, so mode [az] does not give the
    reverse of mode [za]. *)
Lemma distinct_titles_can_tie :
  NoDup (title <$> hyphenated)
  ∧ deref (@sortStep softHyphenCollator "az" hyphenHeap 2%positive) 2%positive
    = hyphenated
  ∧ deref (@sortStep softHyphenCollator "za" hyphenHeap 2%positive) 2%positive
    = hyphenated
  ∧ deref (@sortStep softHyphenCollator "az" hyphenHeap 2%positive) 2%positive
    ≠ reverse (deref (@sortStep softHyphenCollator "za" hyphenHeap 2%positive)
                     2%positive).
Proof.
  split; [apply (bool_decide_unpack _); vm_compute; exact I|].
  split; [reflexivity|]. split; [reflexivity|]. vm_compute. discriminate.
Qed.

(** ** Event handlers *)

Section Handlers.
Context `{Collator}.

Ltac render_vars :=
  match goal with
  | |- context [renderProjects ?s] =>
      let H1 := fresh in let H2 := fresh in let H3 := fresh in
      let H4 := fresh in let H5 := fresh in let H6 := fresh in
      let H7 := fresh in let H8 := fresh in let H9 := fresh in
      let H10 := fresh in
      destruct (renderProjects_vars s)
        as (H1 & H2 & H3 & H4 & H5 & H6 & H7 & H8 & H9 & H10);
      rewrite ?H1, ?H2, ?H3, ?H4, ?H5, ?H6, ?H7, ?H8, ?H9, ?H10;
      clear H1 H2 H3 H4 H5 H6 H7 H8 H9 H10
  end.

(** C6. The search input listener, the filter button listener and the
    clear-filters listener each render from a state in which [currentPage]
    is 1, and leave it at 1; an event whose element is missing reaches no
    listener and nothing is rendered. *)
Theorem filter_events_render_first_page (st : App) :
  (∃ st1, searchInputHandler st = renderProjects st1 ∧ currentPage st1 = 1)
  ∧ (∀ i btn, ∃ st1,
       filterClickHandler i btn st = renderProjects st1 ∧ currentPage st1 = 1)
  ∧ (∃ st1, clearHandler st = renderProjects st1 ∧ currentPage st1 = 1)
  ∧ currentPage (searchInputHandler st) = 1
  ∧ (∀ i btn, currentPage (filterClickHandler i btn st) = 1)
  ∧ currentPage (clearHandler st) = 1
  ∧ (∀ ev, (∀ mode, ev ≠ ChooseSort mode) →
       dispatch st ev = st
       ∨ ∃ st1, dispatch st ev = renderProjects st1 ∧ currentPage st1 = 1).
Proof.
  split; [|split; [|split; [|split; [|split; [|split]]]]].
  - eexists. split; [reflexivity | done].
  - intros i btn. eexists. split; [reflexivity | done].
  - eexists. split; [reflexivity | done].
  - unfold searchInputHandler. by render_vars.
  - intros i btn. unfold filterClickHandler. by render_vars.
  - unfold clearHandler. by render_vars.
  - intros ev Hev. destruct ev as [text|mode|i|]; simpl.
    + destruct (project_search (document st)); [right|by left].
      eexists. split; [reflexivity | done].
    + by destruct (Hev mode).
    + destruct (filter_btns (document st) !! i); [right|by left].
      eexists. split; [reflexivity | done].
    + destruct (clear_filters (document st)); [right|by left].
      eexists. split; [reflexivity | done].
Qed.

(** C10. The clear-filters listener empties the search box and resets the
    engine's search text, sets the category to ["all"] and the page to 1 and
    makes the sort dropdown show ["default"]; it does not assign
    [currentSort], so the render it ends with still sorts by the mode chosen
    before. *)
Theorem clear_keeps_currentSort (st : App) :
  project_search (document (clearHandler st))
  = (λ _, "") <$> project_search (document st)
  ∧ visibilityEngine (clearHandler st) = Engine.reset <$> visibilityEngine st
  ∧ currentCategory (clearHandler st) = "all"
  ∧ currentPage (clearHandler st) = 1
  ∧ project_sort (document (clearHandler st))
    = (λ _, "default") <$> project_sort (document st)
  ∧ currentSort (clearHandler st) = currentSort st
  ∧ ∃ st1, clearHandler st = renderProjects st1
           ∧ currentSort st1 = currentSort st
           ∧ currentCategory st1 = "all"
           ∧ currentPage st1 = 1.
Proof.
  repeat split; try (unfold clearHandler; by render_vars).
  eexists. split; [reflexivity | done].
Qed.

Lemma dispatch_engine_absent st ev :
  visibilityEngine st = None → visibilityEngine (dispatch st ev) = None.
Proof.
  intros Hnone. destruct ev as [text|mode|i|]; simpl.
  - destruct (project_search (document st)); [|done].
    unfold searchInputHandler. render_vars. simpl. by rewrite Hnone.
  - destruct (project_sort (document st)); [|done].
    unfold sortChangeHandler. by render_vars.
  - destruct (filter_btns (document st) !! i); [|done].
    unfold filterClickHandler. render_vars. simpl. by rewrite Hnone.
  - destruct (clear_filters (document st)); [|done].
    unfold clearHandler. render_vars. simpl. by rewrite Hnone.
Qed.

Lemma dispatch_projectFetches st ev :
  projectFetches (dispatch st ev) = projectFetches st.
Proof.
  destruct ev as [text|mode|i|]; simpl.
  - destruct (project_search (document st)); [|done].
    unfold searchInputHandler. by render_vars.
  - destruct (project_sort (document st)); [|done].
    unfold sortChangeHandler. by render_vars.
  - destruct (filter_btns (document st) !! i); [|done].
    unfold filterClickHandler. by render_vars.
  - destruct (clear_filters (document st)); [|done].
    unfold clearHandler. by render_vars.
Qed.

Lemma dispatchAll_after_failure evs st :
  visibilityEngine st = None →
  visibilityEngine (dispatchAll evs st) = None
  ∧ projectFetches (dispatchAll evs st) = projectFetches st.
Proof.
  unfold dispatchAll. revert st.
  induction evs as [|ev evs IH]; intros st Hnone; simpl; [done|].
  destruct (IH (dispatch st ev)) as [? ->];
    auto using dispatch_engine_absent, dispatch_projectFetches.
Qed.

(** C7, as the code has it. When the request for the projects fails or its
    body is not JSON, the message "Unable to load projects" is written into
    the projects container if the script holds that element; no other
    request is issued, then or by any later search, sort, filter or clear
    event; the engine is not constructed, and it stays absent through all
    those events, whose engine calls are skipped. *)
Theorem load_failure_leaves_no_engine (st : App) (r : FetchOutcome)
    (evs : list UserEvent) :
  visibilityEngine st = None →
  r = FetchRejected ∨ r = InvalidJson →
  let st' := fetchProjectsSettled r st in
  (projectsContainer st = true →
   projects_container (document st')
   = (λ _, UnableToLoad) <$> projects_container (document st))
  ∧ (projectsContainer st = false → st' = st)
  ∧ projectFetches st' = projectFetches st
  ∧ visibilityEngine st' = None
  ∧ visibilityEngine (dispatchAll evs st') = None
  ∧ projectFetches (dispatchAll evs st') = projectFetches st.
Proof.
  intros Hnone Hr st'.
  assert (Hst' : st' = if projectsContainer st
                       then showInContainer UnableToLoad st else st).
  { subst st'. by destruct Hr as [-> | ->]. }
  assert (Hengine : visibilityEngine st' = None).
  { rewrite Hst'. by destruct (projectsContainer st). }
  assert (Hfetch : projectFetches st' = projectFetches st).
  { rewrite Hst'. by destruct (projectsContainer st). }
  destruct (dispatchAll_after_failure evs st' Hengine) as [He Hf].
  repeat split; try done.
  - intros Hpc. by rewrite Hst', Hpc.
  - intros Hpc. by rewrite Hst', Hpc.
  - by rewrite Hf.
Qed.

(** C3. Whatever [setSearchQuery]/[setCategory] calls came before, [reset()]
    puts the search text back to the empty string and the category back to
    ["all"] and keeps the reference to the same record store: the engine is
    again the freshly constructed one, and [getVisibleProjects()] after
    [reset()] is the answer of a fresh engine over the same records, every
    record of the store. The clear-filters listener, which calls [reset()],
    changes no array that was alive, the record store among them. *)
Theorem reset_is_fresh_engine (h : heap) (records : loc)
    (calls : list Engine.call) (st : App) :
  let e := Engine.performAll calls (Engine.construct records) in
  Engine.searchQuery (Engine.reset e) = ""
  ∧ Engine.category (Engine.reset e) = "all"
  ∧ Engine.projects (Engine.reset e) = records
  ∧ Engine.reset e = Engine.construct records
  ∧ Engine.getVisibleProjects h (Engine.reset e)
    = Engine.getVisibleProjects h (Engine.construct records)
  ∧ Engine.getVisibleProjects h (Engine.construct records) = deref h records
  ∧ (visibilityEngine st = Some e →
     visibilityEngine (clearHandler st) = Some (Engine.construct records))
  ∧ allProjectsData (clearHandler st) = allProjectsData st
  ∧ (∀ l, is_Some (arrays st !! l) →
          arrays (clearHandler st) !! l = arrays st !! l).
Proof.
  intros e.
  assert (Hp : Engine.projects e = records).
  { subst e. by rewrite performAll_projects. }
  assert (Hr : Engine.reset e = Engine.construct records).
  { unfold Engine.reset, Engine.construct. by rewrite Hp. }
  rewrite Hr. repeat split; try done.
  - apply construct_lists_everything.
  - intros He. unfold clearHandler. render_vars. simpl.
    rewrite He. simpl. by rewrite Hr.
  - unfold clearHandler. by render_vars.
  - intros l Hl. unfold clearHandler. by rewrite renderProjects_frame.
Qed.

End Handlers.

(** ** Start-up *)

(** The six components in time: one initialization. *)
Lemma startup_in_time d :
  initializations
    (app (runStartup (replicate 6 ComponentLoaded ++ [FallbackTimeout])
                     (startup d))) = 1%nat.
Proof. by destruct d as [? ? ? ? ? ? []]. Qed.

(** Fewer than six components ever: the timer initializes, once. *)
Lemma startup_by_timer d (k : nat) :
  (k < 6)%nat →
  initializations
    (app (runStartup (replicate k ComponentLoaded ++ [FallbackTimeout])
                     (startup d))) = 1%nat.
Proof.
  intros Hk. destruct d as [? ? ? ? ? ? []];
    (do 6 (destruct k as [|k]; [reflexivity|])); lia.
Qed.

(** The timer before the sixth component, which then arrives: two
    initializations, however many components came first. *)
Lemma startup_twice d (k : nat) :
  (k < 6)%nat →
  initializations
    (app (runStartup (replicate k ComponentLoaded ++ [FallbackTimeout]
                      ++ replicate (6 - k) ComponentLoaded)
                     (startup d))) = 2%nat.
Proof.
  intros Hk. destruct d as [? ? ? ? ? ? []];
    (do 6 (destruct k as [|k]; [reflexivity|])); lia.
Qed.

(** C9 at a failing interleaving. Five components load, the timer fires and
    initializes, the sixth component loads and the counter reaching 6
    initializes again: [initializeApp] runs twice and both requests are
    issued twice. *)
Theorem late_component_initializes_twice :
  initializations (app (runStartup lateComponent (startup samplePage))) = 2%nat
  ∧ projectFetches (app (runStartup lateComponent (startup samplePage))) = 2%nat
  ∧ contributorFetches (app (runStartup lateComponent (startup samplePage)))
    = 2%nat.
Proof. vm_compute. done. Qed.

(** C7, as stated, fails on a page without [.projects-container]: after a
    rejected request nothing is written anywhere, the state is the one
    before the failure. *)
Lemma no_container_no_message :
  @fetchProjectsSettled codeUnitCollator FetchRejected
    (initializeApp (initialApp pageWithoutContainer))
  = initializeApp (initialApp pageWithoutContainer)
  ∧ projects_container
      (document (@fetchProjectsSettled codeUnitCollator FetchRejected
                   (initializeApp (initialApp pageWithoutContainer))))
    ≠ Some UnableToLoad.
Proof. split; [reflexivity | vm_compute; discriminate]. Qed.

(** ** The theorems at concrete inputs *)

Lemma paginate_spec_witness :
  (paginate twentyProjects 9 3).2 = 3
  ∧ length (paginate twentyProjects 9 3).1 = 2%nat.
Proof.
  destruct (paginate_spec twentyProjects 9 3 ltac:(lia) ltac:(lia))
    as (_ & _ & _ & _ & _ & Hex).
  destruct (Hex eq_refl eq_refl) as (Htotal & _ & Hthird & _).
  split; [exact Htotal | exact (Hthird eq_refl)].
Defined.

Lemma sortStep_in_place_witness :
  @sortStep codeUnitCollator "default" sampleHeap 2%positive = sampleHeap
  ∧ arrays (@renderProjects codeUnitCollator engineless)
      !! allProjectsData engineless
    = arrays engineless !! allProjectsData engineless.
Proof.
  assert (Hstore : is_Some (arrays engineless !! allProjectsData engineless))
    by (by exists [uncategorized]).
  assert (Harray : is_Some (sampleHeap !! 2%positive))
    by (by exists twoProjects).
  destruct (@sortStep_in_place codeUnitCollator engineless "newest" sampleHeap
              2%positive Hstore Harray)
    as (_ & _ & Hdefault & _ & _ & Hframe & _).
  split; [exact Hdefault | exact Hframe].
Defined.

Lemma az_za_reversed_witness :
  deref (@sortStep codeUnitCollator "az" sampleHeap 2%positive) 2%positive
  = reverse (deref (@sortStep codeUnitCollator "za" sampleHeap 2%positive)
                   2%positive).
Proof.
  assert (Hdistinct : NoDup (title <$> twoProjects)).
  { apply (bool_decide_unpack _). vm_compute. exact I. }
  assert (Hapart : ∀ a b, a ∈ twoProjects → b ∈ twoProjects →
                          codeUnitCompare (title a) (title b) = 0 →
                          title a = title b).
  { intros a b Ha Hb. unfold twoProjects in Ha, Hb.
    rewrite !elem_of_cons, elem_of_nil in Ha, Hb.
    destruct Ha as [->|[->|[]]], Hb as [->|[->|[]]]; vm_compute; congruence. }
  exact (proj1 (proj2 (proj2 (proj2 (proj2
           (@az_za_reversed codeUnitCollator sampleHeap 2%positive twoProjects
              eq_refl Hdistinct Hapart)))))).
Defined.

Lemma load_failure_leaves_no_engine_witness :
  projects_container
    (document (@fetchProjectsSettled codeUnitCollator InvalidJson
                 (initializeApp (initialApp samplePage))))
  = Some UnableToLoad
  ∧ visibilityEngine
      (@dispatchAll codeUnitCollator [TypeSearch "a"; ClickClear]
         (@fetchProjectsSettled codeUnitCollator InvalidJson
            (initializeApp (initialApp samplePage))))
    = None.
Proof.
  destruct (@load_failure_leaves_no_engine codeUnitCollator
              (initializeApp (initialApp samplePage)) InvalidJson
              [TypeSearch "a"; ClickClear] eq_refl (or_intror eq_refl))
    as (Hshown & _ & _ & _ & Habsent & _).
  split; [exact (Hshown eq_refl) | exact Habsent].
Defined.

(** ** Category counts *)

Lemma ones_snoc n : ones n +:+ "1" = ones (S n).
Proof.
  induction n as [|n IH]; [done|].
  change (String "1" (ones n +:+ "1") = String "1" (ones (S n))).
  by rewrite IH.
Qed.

Lemma lowerChecks_all c : lowerChecks c = true.
Proof. destruct c as [[] [] [] [] [] [] [] []]; vm_compute; reflexivity. Qed.

Lemma toLowerCase_idemp s : toLowerCase (toLowerCase s) = toLowerCase s.
Proof.
  induction s as [|c s IH]; simpl; [done|]. rewrite IH. f_equal.
  apply (bool_decide_eq_true_1 _ (lowerChecks_all c)).
Qed.

Lemma categoryOr_lower p :
  toLowerCase (categoryOr "unknown" p) = categoryOr "unknown" p.
Proof.
  unfold categoryOr. destruct (truthy (category p)); [|done].
  apply toLowerCase_idemp.
Qed.

(** A key in lowercase inherits nothing but [__proto__] and
    [constructor]: the other names of [Object.prototype] hold a capital. *)
Lemma inherited_lower k :
  toLowerCase k = k →
  inherited k
  = if decide (k = "__proto__") then Some ObjectPrototype
    else if decide (k = "constructor") then Some (BuiltinFunction "Object")
    else None.
Proof.
  intros Hk. unfold inherited. repeat case_decide; try done.
  match goal with Hin : k ∈ objectPrototypeMethods |- _ =>
    unfold objectPrototypeMethods in Hin;
    repeat (apply elem_of_cons in Hin as [->|Hin]; [discriminate Hk|]);
    by apply elem_of_nil in Hin
  end.
Qed.

Lemma inherited_cases k :
  k ≠ "__proto__" →
  inherited k = None ∨ ∃ fn, inherited k = Some (BuiltinFunction fn).
Proof. intros Hk. unfold inherited. repeat case_decide; try done; eauto. Qed.

Lemma countsTotal_insert (counts : gmap string Primitive) c v :
  countsTotal (<[c := v]> counts)
  = (numberOf v + countsTotal (delete c counts))%nat.
Proof.
  unfold countsTotal. rewrite <-insert_delete_eq.
  rewrite map_fold_insert_L; [done | intros; lia | apply lookup_delete_eq].
Qed.

Lemma countsTotal_delete (counts : gmap string Primitive) c :
  countsTotal counts
  = (from_option numberOf 0%nat (counts !! c)
     + countsTotal (delete c counts))%nat.
Proof.
  destruct (counts !! c) as [v|] eqn:Hc; simpl.
  - unfold countsTotal. by rewrite (map_fold_delete_L _ _ c v) by (done || intros; lia).
  - by rewrite delete_id.
Qed.

Lemma filedUnder_cons c p ps :
  filedUnder c (p :: ps)
  = ((if decide (categoryOr "unknown" p = c) then 1 else 0) + filedUnder c ps)%nat.
Proof.
  unfold filedUnder. case_decide.
  - by rewrite filter_cons_True.
  - by rewrite filter_cons_False.
Qed.

Section Tally.
Local Open Scope nat_scope.

Let tally (counts : gmap string Primitive) (p : ProjectRecord)
  : gmap string Primitive :=
  let cat := categoryOr "unknown" p in
  setProperty cat (plusOne (orZero (getProperty counts cat))) counts.

Lemma tally_other counts p c :
  categoryOr "unknown" p ≠ c → tally counts p !! c = counts !! c.
Proof.
  intros Hne. unfold tally, setProperty. cbv zeta.
  case_decide; [done|]. by rewrite lookup_insert_ne.
Qed.

Lemma tally_same counts p k :
  counts !! categoryOr "unknown" p = tallied (categoryOr "unknown" p) k →
  tally counts p !! categoryOr "unknown" p
  = tallied (categoryOr "unknown" p) (S k).
Proof.
  unfold tally. cbv zeta. generalize (categoryOr "unknown" p). intros c Hc.
  unfold setProperty, getProperty. rewrite Hc. unfold tallied.
  destruct (decide (c = "__proto__")) as [Hp|Hp].
  - rewrite Hc. unfold tallied. by rewrite !decide_True by auto.
  - rewrite lookup_insert_eq.
    rewrite (decide_False (P := c = "__proto__" ∨ S k = 0)) by (intros [?|?]; done).
    destruct (inherited_cases c Hp) as [Hinh|[fn Hinh]]; rewrite Hinh;
      destruct k as [|k].
    + by rewrite decide_True by auto.
    + rewrite decide_False by (intros [?|?]; done). simpl.
      by rewrite Nat.add_1_r.
    + by rewrite decide_True by auto.
    + rewrite decide_False by (intros [?|?]; done). cbn [orZero plusOne].
      by rewrite ones_snoc.
Qed.

Lemma tally_lookup counts ps c k :
  counts !! c = tallied c k →
  foldl tally counts ps !! c = tallied c (k + filedUnder c ps).
Proof.
  revert counts k. induction ps as [|p ps IH]; intros counts k Hc; simpl.
  - unfold filedUnder. simpl. by rewrite Nat.add_0_r.
  - rewrite filedUnder_cons.
    destruct (decide (categoryOr "unknown" p = c)) as [Hp|Hp].
    + replace (k + (1 + filedUnder c ps)) with (S k + filedUnder c ps) by lia.
      apply IH. subst c. by apply tally_same.
    + apply IH. by rewrite tally_other.
Qed.

(** Numbers sit under ordinary keys and function texts under inherited
    ones. *)
Let wellKinded (counts : gmap string Primitive) : Prop :=
  ∀ c v, counts !! c = Some v →
         match v with
         | Num _ => inherited c = None
         | SourceThen _ _ => inherited c ≠ None
         | Str _ => False
         end.

Lemma tally_wellKinded counts p : wellKinded counts → wellKinded (tally counts p).
Proof.
  intros Hk c v. destruct (decide (categoryOr "unknown" p = c)) as [<-|Hne];
    [|rewrite tally_other by done; apply Hk].
  unfold tally. cbv zeta. generalize (categoryOr "unknown" p). intros c.
  unfold setProperty. destruct (decide (c = "__proto__")) as [Hp|Hp]; [apply Hk|].
  rewrite lookup_insert_eq. intros [= <-]. unfold getProperty.
  destruct (counts !! c) as [[n|s|fn s]|] eqn:Hc.
  - specialize (Hk c _ Hc). by destruct n.
  - by specialize (Hk c _ Hc).
  - specialize (Hk c _ Hc). done.
  - destruct (inherited_cases c Hp) as [Hinh|[fn Hinh]]; by rewrite Hinh.
Qed.

Lemma tally_total counts ps :
  wellKinded counts →
  countsTotal (foldl tally counts ps)
  = countsTotal counts
    + length (filter (λ p, inherited (categoryOr "unknown" p) = None) ps).
Proof.
  revert counts. induction ps as [|p ps IH]; intros counts Hk; simpl; [lia|].
  rewrite IH by by apply tally_wellKinded.
  assert (Hstep : countsTotal (tally counts p)
                  = countsTotal counts
                    + (if decide (inherited (categoryOr "unknown" p) = None)
                       then 1 else 0)).
  { unfold tally. cbv zeta. generalize (categoryOr "unknown" p). intros c.
    unfold setProperty. destruct (decide (c = "__proto__")) as [Hp|Hp].
    { subst c. rewrite decide_False by done. lia. }
    rewrite countsTotal_insert, (countsTotal_delete counts c).
    unfold getProperty.
    destruct (counts !! c) as [[n|s|fn s]|] eqn:Hc.
    - rewrite (Hk c _ Hc), decide_True by done. destruct n; simpl; lia.
    - by specialize (Hk c _ Hc).
    - rewrite decide_False by apply (Hk c _ Hc). simpl. lia.
    - destruct (inherited_cases c Hp) as [Hinh|[fn Hinh]]; rewrite Hinh.
      + rewrite decide_True by done. simpl. lia.
      + rewrite decide_False by done. simpl. lia. }
  rewrite Hstep. case_decide.
  - rewrite filter_cons_True by done. simpl. lia.
  - rewrite filter_cons_False by done. lia.
Qed.

End Tally.

(** What the [counts] object holds under each key. *)
Lemma categoryCounts_key (ps : list ProjectRecord) (c : string) :
  categoryCounts ps !! c = tallied c (filedUnder c ps).
Proof.
  unfold categoryCounts.
  rewrite (tally_lookup ∅ ps c 0); [done|].
  rewrite lookup_empty. unfold tallied. by rewrite decide_True by auto.
Qed.

Lemma categoryOr_inherited p :
  inherited (categoryOr "unknown" p) = None
  ↔ categoryOr "unknown" p ≠ "constructor"
    ∧ categoryOr "unknown" p ≠ "__proto__".
Proof.
  rewrite (inherited_lower _ (categoryOr_lower p)).
  repeat case_decide; split; (done || by intros [? ?]).
Qed.

Lemma categoryCounts_numbers (ps : list ProjectRecord) :
  countsTotal (categoryCounts ps)
  = length (filter (λ p, categoryOr "unknown" p ≠ "constructor"
                         ∧ categoryOr "unknown" p ≠ "__proto__") ps).
Proof.
  unfold categoryCounts. rewrite (tally_total ∅ ps).
  - unfold countsTotal at 1. rewrite map_fold_empty. simpl. f_equal.
    apply list_filter_iff. intros p. apply categoryOr_inherited.
  - intros c v. by rewrite lookup_empty.
Qed.

(** What a filter button is labelled with, read off the loaded records. *)
Lemma buttonCount_value (ps : list ProjectRecord) (b : FilterButton) :
  buttonCount ps b
  = let cat := toLowerCase (data_filter b) in
    if decide (cat = "all") then Prim (Num (length ps))
    else if decide (cat = "__proto__") then ObjectPrototype
    else if decide (cat = "constructor") then
      match filedUnder cat ps with
      | O => BuiltinFunction "Object"
      | S n => Prim (SourceThen "Object" (ones (S n)))
      end
    else Prim (Num (filedUnder cat ps)).
Proof.
  unfold buttonCount. cbv zeta.
  pose proof (inherited_lower _ (toLowerCase_idemp (data_filter b))) as Hinh.
  generalize dependent (toLowerCase (data_filter b)). intros cat Hinh.
  destruct (decide (cat = "all")) as [|Hall]; [done|]. unfold getProperty.
  rewrite categoryCounts_key. unfold tallied. rewrite Hinh.
  destruct (decide (cat = "__proto__")) as [Hp|Hp].
  { by rewrite decide_True by auto. }
  destruct (decide (cat = "constructor")) as [Hc|Hc];
    destruct (filedUnder cat ps) as [|m].
  - by rewrite decide_True by auto.
  - by rewrite decide_False by (intros [?|?]; done).
  - by rewrite decide_True by auto.
  - by rewrite decide_False by (intros [?|?]; done).
Qed.

(** X1. Under an ordinary key the [counts] object holds the number of
    projects filed under it, and nothing when there is none. It is a plain
    object: under a key that names a function it inherits ([constructor]
    is the only one in lowercase) it holds no number but the source text
    of that function followed by one digit 1 per project, and the key
    [__proto__] never becomes a property of its own. *)
Theorem categoryCounts_lookup (ps : list ProjectRecord) (c : string) :
  categoryCounts ps !! c
  = if decide (c = "__proto__" ∨ filedUnder c ps = 0%nat) then None
    else match inherited c with
         | Some (BuiltinFunction fn) =>
             Some (SourceThen fn (ones (filedUnder c ps)))
         | _ => Some (Num (filedUnder c ps))
         end.
Proof. apply categoryCounts_key. Qed.

(** X2. The numbers kept in [counts] add up to the number of projects
    whose category, in lowercase, is neither [constructor] nor
    [__proto__]: every such project is counted exactly once, and when no
    project carries one of these two categories the numbers add up to the
    number of loaded projects. *)
Theorem categoryCounts_total (ps : list ProjectRecord) :
  countsTotal (categoryCounts ps)
  = length (filter (λ p, categoryOr "unknown" p ≠ "constructor"
                         ∧ categoryOr "unknown" p ≠ "__proto__") ps)
  ∧ ((∀ p, p ∈ ps → categoryOr "unknown" p ≠ "constructor"
                    ∧ categoryOr "unknown" p ≠ "__proto__") →
     countsTotal (categoryCounts ps) = length ps).
Proof.
  split; [apply categoryCounts_numbers|]. intros Hps.
  rewrite categoryCounts_numbers. f_equal.
  induction ps as [|p ps IH]; [done|].
  rewrite filter_cons_True by (apply Hps; left).
  f_equal. apply IH. intros q Hq. apply Hps. by right.
Qed.

Lemma categoryCounts_total_witness :
  countsTotal (categoryCounts galleryStore) = 12%nat.
Proof.
  refine (proj2 (categoryCounts_total galleryStore) _).
  intros p Hp. unfold galleryStore in Hp.
  apply elem_of_app in Hp as [Hp|Hp]; apply elem_of_replicate in Hp as [-> _];
    vm_compute; split; discriminate.
Defined.

(** X4. Writing the counts changes the labels and nothing else: every
    button keeps its [data-filter] and its highlight. The button [all]
    shows the number of loaded projects and a button of an ordinary
    category the number of projects filed under it, 0 when there is none,
    whatever it showed before. A button [constructor] shows the function
    [Object], or its source text followed by digits once projects carry that
    category, and a button [__proto__] shows [Object.prototype]. With no
    project loaded every label is left as it was; and writing the counts
    twice is writing them once. *)
Theorem updateCategoryCounts_labels (st : App) :
  let ps := deref (arrays st) (allProjectsData st) in
  let btns := filter_btns (document st) in
  let btns' := filter_btns (document (updateCategoryCounts st)) in
  (ps = [] → updateCategoryCounts st = st)
  ∧ (ps ≠ [] →
     updateCategoryCounts st
     = set_document (set_filter_btns btns' (document st)) st
     ∧ data_filter <$> btns' = data_filter <$> btns
     ∧ active <$> btns' = active <$> btns
     ∧ shownCount <$> btns'
       = (λ b, let cat := toLowerCase (data_filter b) in
               Some (if decide (cat = "all") then Prim (Num (length ps))
                     else if decide (cat = "__proto__") then ObjectPrototype
                     else if decide (cat = "constructor") then
                       match filedUnder cat ps with
                       | O => BuiltinFunction "Object"
                       | S n => Prim (SourceThen "Object" (ones (S n)))
                       end
                     else Prim (Num (filedUnder cat ps)))) <$> btns)
  ∧ updateCategoryCounts (updateCategoryCounts st) = updateCategoryCounts st.
Proof.
  intros ps btns btns'. subst ps btns btns'. unfold updateCategoryCounts.
  destruct (deref (arrays st) (allProjectsData st)) as [|p ps] eqn:Hps.
  - rewrite Hps. by repeat split.
  - simpl. rewrite Hps. simpl. split; [done|]. split.
    + intros _. rewrite <-!list_fmap_compose. repeat split; try done.
      apply list_fmap_ext. intros i b Hb. simpl.
      f_equal. apply buttonCount_value.
    + rewrite <-list_fmap_compose. done.
Qed.

(** ** What a render shows *)

Section Shown.
Context `{Collator}.

Lemma sortStep_deref mode (h : heap) f :
  deref (sortStep mode h f) f = sortItems mode (deref h f).
Proof.
  unfold sortStep, sortItems.
  repeat case_decide; by rewrite ?deref_insert.
Qed.

Lemma sortItems_Permutation mode l : sortItems mode l ≡ₚ l.
Proof.
  unfold sortItems. repeat case_decide;
    auto using arraySort_Permutation, reverse_Permutation.
Qed.

Lemma sortItems_nil mode : sortItems mode [] = [].
Proof. apply Permutation_nil_r, sortItems_Permutation. Qed.

Lemma workingArray_sorted st :
  workingArray st
  = sortItems (currentSort st)
      (deref (filterStep (set_projectsContainer true st)).2
             (filterStep (set_projectsContainer true st)).1).
Proof. apply sortStep_deref. Qed.

(** The two views after a render that found its container. *)
Lemma renderProjects_shown st :
  containerFound st = true →
  let page := (paginate (workingArray st) itemsPerPage (currentPage st)).1 in
  let totalPages := (paginate (workingArray st) itemsPerPage (currentPage st)).2 in
  projects_container (document (renderProjects st))
  = (λ _, match page with [] => NoProjectsFound | _ :: _ => Cards page end)
    <$> projects_container (document st)
  ∧ pagination_controls (document (renderProjects st))
    = (λ _, match page with
            | [] => NoControls
            | _ :: _ => if decide (totalPages <= 1) then NoControls
                        else Controls totalPages (currentPage st)
            end)
      <$> pagination_controls (document st).
Proof.
  intros Hfound. unfold workingArray, renderProjects.
  fold (containerFound st). rewrite Hfound. cbn [negb].
  destruct (filterStep (set_projectsContainer true st)) as [f h1]. cbn [fst snd].
  change (currentSort (set_projectsContainer true st)) with (currentSort st).
  change (currentPage (set_projectsContainer true st)) with (currentPage st).
  destruct (paginate (deref (sortStep (currentSort st) h1 f) f) itemsPerPage
              (currentPage st)) as [[|item items] totalPages];
    unfold renderPagination, showInContainer; cbn [fst snd];
    simpl; destruct (pagination_controls (document st)) eqn:Hpc; simpl;
    rewrite ?Hpc; done.
Qed.

(** Without its container a render changes nothing. *)
Lemma renderProjects_not_found st :
  containerFound st = false → renderProjects st = st.
Proof.
  intros Hfound. unfold renderProjects. fold (containerFound st).
  by rewrite Hfound.
Qed.

Lemma page_empty_iff (l : list ProjectRecord) (page : Z) :
  1 ≤ page →
  (paginate l itemsPerPage page).1 = []
  ↔ Z.of_nat (length l) ≤ (page - 1) * itemsPerPage.
Proof.
  intros Hpage. unfold paginate, itemsPerPage. cbn [fst].
  rewrite slice_page by lia.
  rewrite <-length_zero_iff_nil, length_take, length_drop. lia.
Qed.

(** A slice is a run of consecutive elements. *)
Lemma slice_sublist {A} (l : list A) (s e : Z) : slice l s e `sublist_of` l.
Proof.
  unfold slice. etrans; [apply sublist_take | apply sublist_drop].
Qed.

(** What the working array holds, read from the variables and the store. *)
Lemma workingArray_content st :
  (∀ e, visibilityEngine st = Some e → is_Some (arrays st !! Engine.projects e)) →
  workingArray st
  = sortItems (currentSort st)
      match visibilityEngine st with
      | Some e => Engine.getVisibleProjects (arrays st) e
      | None =>
          if decide (currentCategory st ≠ "all")
          then filter (λ p, categoryOr "" p = toLowerCase (currentCategory st))
                      (deref (arrays st) (allProjectsData st))
          else deref (arrays st) (allProjectsData st)
      end.
Proof.
  intros Hstore. rewrite workingArray_sorted. f_equal.
  destruct (visibilityEngine st) as [e|] eqn:He.
  - by rewrite (filterStep_engine _ e) by auto.
  - by rewrite filterStep_fallback.
Qed.

(** X5. A render on a page from 1 on shows the empty state exactly when the
    working array has no record at the page's first position, and otherwise
    shows the cards of the records from that position on, at least one and
    at most nine: it never shows an empty set of cards. *)
Theorem render_shows_current_page (st : App) :
  is_Some (projects_container (document st)) →
  1 ≤ currentPage st →
  let n := Z.of_nat (length (workingArray st)) in
  let start := (currentPage st - 1) * 9 in
  let page := take 9 (drop (Z.to_nat start) (workingArray st)) in
  (n ≤ start →
   projects_container (document (renderProjects st)) = Some NoProjectsFound)
  ∧ (start < n →
     projects_container (document (renderProjects st)) = Some (Cards page)
     ∧ Z.of_nat (length page) = Z.min 9 (n - start)
     ∧ (1 ≤ length page ≤ 9)%nat).
Proof.
  intros [v Hv] Hpage n start page.
  assert (Hfound : containerFound st = true).
  { unfold containerFound. rewrite Hv.
    rewrite (bool_decide_eq_true_2 _); [apply orb_true_r | by eexists]. }
  assert (Hslice : (paginate (workingArray st) itemsPerPage (currentPage st)).1
                   = page).
  { unfold paginate, itemsPerPage. cbn [fst]. by rewrite slice_page by lia. }
  pose proof (renderProjects_shown st Hfound) as Hshown. cbv zeta in Hshown.
  destruct Hshown as [Hshown _].
  rewrite Hslice, Hv in Hshown. cbn [fmap option_fmap option_map] in Hshown.
  assert (Hlen : Z.of_nat (length page) = Z.max 0 (Z.min 9 (n - start))).
  { subst page n start. rewrite length_take, length_drop. lia. }
  split; intros Hn.
  - rewrite Hshown. destruct page; [done|]. simpl in Hlen. lia.
  - rewrite Hshown. destruct page as [|item items] eqn:Hp.
    + simpl in Hlen. lia.
    + split; [done|]. lia.
Qed.

(** X6. With the projects container and the pagination container on the
    page, a render on a page from 1 on draws the page buttons exactly when
    the working array has more than nine records and the current page is not
    past the end; the buttons are drawn for the ceiling of a ninth of the
    records, which the current page does not exceed. *)
Theorem render_draws_controls (st : App) :
  is_Some (projects_container (document st)) →
  is_Some (pagination_controls (document st)) →
  1 ≤ currentPage st →
  let n := Z.of_nat (length (workingArray st)) in
  let start := (currentPage st - 1) * 9 in
  pagination_controls (document (renderProjects st))
  = Some (if decide (9 < n ∧ start < n)
          then Controls (ceilDiv n 9) (currentPage st) else NoControls)
  ∧ (start < n → currentPage st ≤ ceilDiv n 9)
  ∧ (9 < n ↔ 1 < ceilDiv n 9).
Proof.
  intros [v Hv] [w Hw] Hpage n start.
  assert (Hfound : containerFound st = true).
  { unfold containerFound. rewrite Hv.
    rewrite (bool_decide_eq_true_2 _); [apply orb_true_r | by eexists]. }
  pose proof (renderProjects_shown st Hfound) as Hshown. cbv zeta in Hshown.
  destruct Hshown as [_ Hshown].
  assert (Hempty : (paginate (workingArray st) itemsPerPage (currentPage st)).1
                   = [] ↔ n ≤ start)
    by apply (page_empty_iff (workingArray st) (currentPage st) Hpage).
  pose proof (ceilDiv_bounds n 9 ltac:(lia)) as Hceil.
  assert (Htotal : (paginate (workingArray st) itemsPerPage (currentPage st)).2
                   = ceilDiv n 9) by done.
  rewrite Htotal, Hw in Hshown. cbn [fmap option_fmap option_map] in Hshown.
  split; [|split; [subst start; nia | lia]].
  rewrite Hshown.
  destruct ((paginate (workingArray st) itemsPerPage (currentPage st)).1)
    as [|item items].
  - rewrite decide_False; [done|]. intros [_ Hlt].
    destruct Hempty as [Hempty _]. specialize (Hempty eq_refl). lia.
  - assert (Hlt : start < n).
    { destruct (decide (start < n)) as [|Hge]; [done|].
      destruct Hempty as [_ Hempty]. by discriminate Hempty; lia. }
    case_decide as Hone.
    + rewrite decide_False; [done | lia].
    + rewrite decide_True; [done | lia].
Qed.


Lemma containerFound_of_shown st v :
  projects_container (document (renderProjects st)) = Some v →
  containerFound st = true.
Proof.
  intros Hv. destruct (containerFound st) eqn:Hfound; [done|].
  rewrite renderProjects_not_found in Hv by done.
  unfold containerFound in Hfound. rewrite Hv in Hfound.
  rewrite (bool_decide_eq_true_2 _), orb_true_r in Hfound; [done | by eexists].
Qed.

(** X7. The cards of a render are records of the store, none shown more
    often than the store holds it; while no engine exists and a category
    other than ["all"] is chosen, every card is of that category, a missing
    category reading as [""]. *)
Theorem render_cards_from_store (st : App) (items : list ProjectRecord) :
  is_Some (arrays st !! allProjectsData st) →
  (∀ e, visibilityEngine st = Some e → Engine.projects e = allProjectsData st) →
  projects_container (document (renderProjects st)) = Some (Cards items) →
  items ⊆+ deref (arrays st) (allProjectsData st)
  ∧ (visibilityEngine st = None → currentCategory st ≠ "all" →
     ∀ p, p ∈ items → categoryOr "" p = toLowerCase (currentCategory st)).
Proof.
  intros Hstore Halias Hcards.
  pose proof (containerFound_of_shown st _ Hcards) as Hfound.
  pose proof (renderProjects_shown st Hfound) as Hshown. cbv zeta in Hshown.
  destruct Hshown as [Hshown _]. rewrite Hcards in Hshown.
  assert (Hitems : items `sublist_of` workingArray st).
  { destruct (projects_container (document st)); [|done].
    cbn [fmap option_fmap option_map] in Hshown.
    destruct ((paginate (workingArray st) itemsPerPage (currentPage st)).1)
      as [|item rest] eqn:Hpage; [done|].
    injection Hshown as ->. rewrite <-Hpage. apply slice_sublist. }
  rewrite workingArray_content in Hitems.
  2:{ intros e He. by rewrite (Halias e He). }
  apply sublist_submseteq in Hitems. rewrite sortItems_Permutation in Hitems.
  destruct (visibilityEngine st) as [e|] eqn:He.
  - split; [|done]. etrans; [exact Hitems|].
    unfold Engine.getVisibleProjects. rewrite (Halias e eq_refl).
    apply sublist_submseteq, sublist_filter.
  - case_decide as Hcat.
    + split.
      * etrans; [exact Hitems|]. apply sublist_submseteq, sublist_filter.
      * intros _ _ p Hp.
        assert (Hin : p ∈ filter
                        (λ p, categoryOr "" p = toLowerCase (currentCategory st))
                        (deref (arrays st) (allProjectsData st))).
        { by apply (elem_of_submseteq _ _ _ Hp Hitems). }
        by apply list_elem_of_filter in Hin as [? _].
    + split; [done|]. intros _ Hne. by destruct Hcat.
Qed.


Lemma renderProjects_document st :
  containerFound st = true →
  document (renderProjects st)
  = set_pagination_controls
      ((λ _, shownControls st) <$> pagination_controls (document st))
      (set_projects_container
         ((λ _, shownCards st) <$> projects_container (document st))
         (document st))
  ∧ projectsContainer (renderProjects st) = true.
Proof.
  intros Hfound. unfold shownCards, shownControls, workingArray, renderProjects.
  fold (containerFound st). rewrite Hfound. cbn [negb].
  destruct (filterStep (set_projectsContainer true st)) as [f h1]. cbn [fst snd].
  change (currentSort (set_projectsContainer true st)) with (currentSort st).
  change (currentPage (set_projectsContainer true st)) with (currentPage st).
  destruct (paginate (deref (sortStep (currentSort st) h1 f) f) itemsPerPage
              (currentPage st)) as [[|item items] totalPages];
    unfold renderPagination, showInContainer; cbn [fst snd];
    simpl; destruct (document st) as [pc [pg|] ps po fb cf cg]; simpl;
    try done.
Qed.

Lemma getVisibleProjects_same_store (h h' : heap) e :
  h' !! Engine.projects e = h !! Engine.projects e →
  Engine.getVisibleProjects h' e = Engine.getVisibleProjects h e.
Proof. intros Heq. unfold Engine.getVisibleProjects, deref. by rewrite Heq. Qed.

(** A render leaves the working array of the next render as it was. *)
Lemma workingArray_renderProjects st :
  is_Some (arrays st !! allProjectsData st) →
  (∀ e, visibilityEngine st = Some e → is_Some (arrays st !! Engine.projects e)) →
  workingArray (renderProjects st) = workingArray st.
Proof.
  intros Hstore Hengine.
  destruct (renderProjects_vars st)
    as (Hpage & Hcat & Hsort & He & Hdata & _).
  rewrite !workingArray_content.
  - rewrite Hsort, He, Hcat, Hdata. f_equal.
    destruct (visibilityEngine st) as [e|] eqn:Heq.
    + apply getVisibleProjects_same_store, renderProjects_frame. auto.
    + unfold deref. by rewrite renderProjects_frame.
  - done.
  - intros e Heq. rewrite He in Heq. rewrite renderProjects_frame; auto.
Qed.

(** X8. Rendering again, nothing having changed, shows the same page: the
    second render leaves the document of the first. *)
Theorem render_twice (st : App) :
  is_Some (arrays st !! allProjectsData st) →
  (∀ e, visibilityEngine st = Some e → is_Some (arrays st !! Engine.projects e)) →
  document (renderProjects (renderProjects st)) = document (renderProjects st).
Proof.
  intros Hstore Hengine.
  destruct (containerFound st) eqn:Hfound.
  2:{ by rewrite !(renderProjects_not_found st Hfound). }
  destruct (renderProjects_document st Hfound) as [Hdoc Hvar].
  assert (Hfound' : containerFound (renderProjects st) = true).
  { unfold containerFound. by rewrite Hvar. }
  destruct (renderProjects_document _ Hfound') as [Hdoc' _].
  assert (Hcards : shownCards (renderProjects st) = shownCards st).
  { unfold shownCards. rewrite workingArray_renderProjects by done.
    by destruct (renderProjects_vars st) as (-> & _). }
  assert (Hcontrols : shownControls (renderProjects st) = shownControls st).
  { unfold shownControls. rewrite workingArray_renderProjects by done.
    by destruct (renderProjects_vars st) as (-> & _). }
  rewrite Hdoc', Hcards, Hcontrols, Hdoc.
  by destruct (document st) as [[pc|] [pg|] ps po fb cf cg].
Qed.

Lemma slice_nil {A} (s e : Z) : slice (@nil A) s e = [].
Proof. unfold slice. by rewrite drop_nil, take_nil. Qed.

Lemma workingArray_nothing_loaded st :
  visibilityEngine st = None →
  deref (arrays st) (allProjectsData st) = [] →
  workingArray st = [].
Proof.
  intros He Hempty. rewrite workingArray_content by (by rewrite He).
  rewrite He, Hempty. case_decide; apply sortItems_nil.
Qed.

Lemma render_nothing_loaded st :
  visibilityEngine st = None →
  deref (arrays st) (allProjectsData st) = [] →
  is_Some (projects_container (document st)) →
  projects_container (document (renderProjects st)) = Some NoProjectsFound.
Proof.
  intros He Hempty [v Hv].
  assert (Hfound : containerFound st = true).
  { unfold containerFound. rewrite Hv.
    rewrite (bool_decide_eq_true_2 _); [apply orb_true_r | by eexists]. }
  destruct (renderProjects_document st Hfound) as [-> _]. simpl.
  rewrite Hv. simpl. unfold shownCards.
  rewrite workingArray_nothing_loaded by done.
  unfold paginate. cbn [fst]. by rewrite slice_nil.
Qed.

(** X9. While nothing is loaded and no engine exists, as after a failed
    load, every search, sort, filter or clear event that reaches its listener
    ends with the projects container showing the empty state: a message
    written by the failed load is overwritten. *)
Theorem first_event_replaces_message (st : App) (ev : UserEvent) :
  visibilityEngine st = None →
  deref (arrays st) (allProjectsData st) = [] →
  is_Some (projects_container (document st)) →
  listening (document st) ev = true →
  projects_container (document (dispatch st ev)) = Some NoProjectsFound.
Proof.
  intros He Hempty Hpc Hev.
  destruct ev as [text|mode|i|]; simpl in *.
  - apply bool_decide_eq_true in Hev as [v Hv]. rewrite Hv.
    apply render_nothing_loaded; simpl; by rewrite ?He.
  - apply bool_decide_eq_true in Hev as [v Hv]. rewrite Hv.
    by apply render_nothing_loaded.
  - apply bool_decide_eq_true in Hev as [btn Hbtn]. rewrite Hbtn.
    apply render_nothing_loaded; simpl; by rewrite ?He.
  - rewrite Hev. apply render_nothing_loaded; simpl; by rewrite ?He.
Qed.

End Shown.

Lemma render_shows_current_page_witness :
  projects_container (document (@renderProjects codeUnitCollator galleryWithoutEngine))
  = Some (Cards (take 9 galleryStore)).
Proof.
  assert (Hpc : is_Some (projects_container (document galleryWithoutEngine)))
    by (by eexists).
  assert (Hpage : 1 ≤ currentPage galleryWithoutEngine) by (vm_compute; discriminate).
  destruct (@render_shows_current_page codeUnitCollator galleryWithoutEngine
              Hpc Hpage) as [_ Hcards].
  destruct Hcards as [Hcards _]; [by vm_compute|].
  exact Hcards.
Defined.

Lemma render_draws_controls_witness :
  pagination_controls (document (@renderProjects codeUnitCollator galleryWithoutEngine))
  = Some (Controls 2 1).
Proof.
  assert (Hpc : is_Some (projects_container (document galleryWithoutEngine)))
    by (by eexists).
  assert (Hpg : is_Some (pagination_controls (document galleryWithoutEngine)))
    by (by eexists).
  assert (Hpage : 1 ≤ currentPage galleryWithoutEngine) by (vm_compute; discriminate).
  destruct (@render_draws_controls codeUnitCollator galleryWithoutEngine
              Hpc Hpg Hpage) as [Hcontrols _].
  exact Hcontrols.
Defined.

Lemma render_cards_from_store_witness :
  take 9 galleryStore ⊆+ galleryStore.
Proof.
  assert (Hstore : is_Some (arrays galleryWithoutEngine
                            !! allProjectsData galleryWithoutEngine))
    by (by eexists).
  assert (Halias : ∀ e, visibilityEngine galleryWithoutEngine = Some e →
                        Engine.projects e = allProjectsData galleryWithoutEngine)
    by (intros e; discriminate).
  assert (Hshown : projects_container
                     (document (@renderProjects codeUnitCollator galleryWithoutEngine))
                   = Some (Cards (take 9 galleryStore)))
    by (by vm_compute).
  exact (proj1 (@render_cards_from_store codeUnitCollator galleryWithoutEngine
                  (take 9 galleryStore) Hstore Halias Hshown)).
Defined.

Lemma render_twice_witness :
  document (@renderProjects codeUnitCollator
              (@renderProjects codeUnitCollator galleryWithoutEngine))
  = document (@renderProjects codeUnitCollator galleryWithoutEngine).
Proof.
  apply (@render_twice codeUnitCollator galleryWithoutEngine).
  - by eexists.
  - intros e; discriminate.
Defined.

Lemma first_event_replaces_message_witness :
  projects_container
    (document (@dispatch codeUnitCollator
                 (@fetchProjectsSettled codeUnitCollator InvalidJson
                    (initializeApp (initialApp samplePage)))
                 ClickClear))
  = Some NoProjectsFound.
Proof.
  apply (@first_event_replaces_message codeUnitCollator).
  - reflexivity.
  - reflexivity.
  - by eexists.
  - reflexivity.
Defined.

(** ** The pages together *)

Lemma chunks_concat {A} (l : list A) (size count : nat) :
  (length l ≤ count * size)%nat →
  concat ((λ k, take size (drop (k * size) l)) <$> seq 0 count) = l.
Proof.
  revert l. induction count as [|count IH]; intros l Hlen.
  - simpl in *. by destruct l; [|simpl in Hlen; lia].
  - rewrite <-cons_seq, fmap_cons, concat_cons. simpl.
    rewrite <-fmap_S_seq, <-list_fmap_compose.
    transitivity (take size l ++ drop size l); [|apply take_drop]. f_equal.
    etrans; [|apply (IH (drop size l)); rewrite length_drop; lia].
    f_equal. apply list_fmap_ext. intros i k Hk. simpl.
    by rewrite drop_drop, (Nat.add_comm size).
Qed.

(** X10. The pages lose nothing and repeat nothing: the slices of pages 1
    to [totalPages], put end to end, are the sequence that was paginated. *)
Theorem pages_partition (records : list ProjectRecord) (pageSize : Z) :
  0 < pageSize →
  concat ((λ page, (paginate records pageSize page).1)
          <$> seqZ 1 (paginate records pageSize 1).2)
  = records.
Proof.
  intros Hsize. unfold paginate. cbn [fst snd].
  pose proof (ceilDiv_bounds (Z.of_nat (length records)) pageSize Hsize) as Hceil.
  set (total := ceilDiv (Z.of_nat (length records)) pageSize) in *.
  assert (Htotal : 0 ≤ total) by nia.
  etrans;
    [|apply (chunks_concat records (Z.to_nat pageSize) (Z.to_nat total)); nia].
  f_equal. unfold seqZ. rewrite <-list_fmap_compose.
  apply list_fmap_ext. intros i k Hk. simpl.
  rewrite slice_page by lia. do 2 f_equal. lia.
Qed.

(** X11. Every page before the last is full, and the last page has at least
    one record and at most [pageSize]. *)
Theorem pages_are_full (records : list ProjectRecord) (pageSize page : Z) :
  0 < pageSize →
  let totalPages := (paginate records pageSize page).2 in
  let size := Z.of_nat (length (paginate records pageSize page).1) in
  (1 ≤ page < totalPages → size = pageSize)
  ∧ (1 ≤ page → page = totalPages → 1 ≤ size ≤ pageSize)
  ∧ (1 ≤ page → page = totalPages →
     size = Z.of_nat (length records) - (totalPages - 1) * pageSize).
Proof.
  intros Hsize totalPages size. subst totalPages size.
  unfold paginate. cbn [fst snd].
  pose proof (ceilDiv_bounds (Z.of_nat (length records)) pageSize Hsize) as Hceil.
  set (total := ceilDiv (Z.of_nat (length records)) pageSize) in *.
  assert (Hfull : 1 ≤ page < total →
                  (page - 1) * pageSize + pageSize ≤ Z.of_nat (length records))
    by (intros; nia).
  assert (Hstart : 1 ≤ page → 0 ≤ (page - 1) * pageSize) by (intros; nia).
  repeat split; intros; rewrite slice_page by lia;
    rewrite length_take, length_drop; subst; lia.
Qed.

Lemma pages_partition_witness :
  concat ((λ page, (paginate twentyProjects 9 page).1)
          <$> seqZ 1 (paginate twentyProjects 9 1).2)
  = twentyProjects.
Proof. apply pages_partition. lia. Defined.

Lemma pages_are_full_witness :
  Z.of_nat (length (paginate twentyProjects 9 3).1) = 20 - (3 - 1) * 9.
Proof.
  destruct (pages_are_full twentyProjects 9 3 ltac:(lia)) as (_ & _ & Hlast).
  apply Hlast; [lia | reflexivity].
Defined.

(** ** More on the sort modes *)

Section SortOrder.
Context `{Collator}.

Lemma compareZa_tie a b :
  localeCompare (title a) (title b) = 0 ↔ compareZa a b = 0.
Proof.
  unfold compareZa. pose proof (localeCompare_sgn (title a) (title b)). lia.
Qed.

Lemma arraySort_za_stable a l :
  filter (λ b, localeCompare (title a) (title b) = 0) (arraySort compareZa l)
  = filter (λ b, localeCompare (title a) (title b) = 0) l.
Proof.
  transitivity (filter (λ b, compareZa a b = 0) (arraySort compareZa l)).
  { apply list_filter_iff. intros b. apply compareZa_tie. }
  etrans; [apply (arraySort_stable compareZa compareZa_sgn compareZa_trans a)|].
  apply list_filter_iff. intros b. symmetry. apply compareZa_tie.
Qed.

(** X12. Modes [az] and [za] are stable: the records whose titles compare
    equal to a given record's title keep, among themselves, the order they
    had in the array. *)
Theorem sort_modes_stable (h : heap) (f : loc) (a : ProjectRecord) :
  filter (λ b, localeCompare (title a) (title b) = 0)
         (deref (sortStep "az" h f) f)
  = filter (λ b, localeCompare (title a) (title b) = 0) (deref h f)
  ∧ filter (λ b, localeCompare (title a) (title b) = 0)
           (deref (sortStep "za" h f) f)
    = filter (λ b, localeCompare (title a) (title b) = 0) (deref h f).
Proof.
  rewrite sortStep_az, sortStep_za. split.
  - apply (arraySort_stable compareAz compareAz_sgn compareAz_trans a).
  - apply arraySort_za_stable.
Qed.

Lemma filter_all {A} (P : A → Prop) `{∀ x, Decision (P x)} (l : list A) :
  (∀ x, x ∈ l → P x) → filter P l = l.
Proof.
  induction l as [|x l IH]; intros Hall; [done|].
  rewrite filter_cons_True by (apply Hall; left).
  f_equal. apply IH. intros y Hy. apply Hall. by right.
Qed.

(** X13. Records whose titles all compare equal are left in their order by
    mode [az] and by mode [za] alike: with ties the two modes are not each
    other's reverse. *)
Theorem tied_titles_keep_order (h : heap) (f : loc) (rs : list ProjectRecord) :
  h !! f = Some rs →
  (∀ a b, a ∈ rs → b ∈ rs → localeCompare (title a) (title b) = 0) →
  deref (sortStep "az" h f) f = rs ∧ deref (sortStep "za" h f) f = rs.
Proof.
  intros Hf Hties. rewrite sortStep_az, sortStep_za, (deref_Some h f rs Hf).
  destruct rs as [|a rs]; [done|].
  assert (Hall : ∀ l, l ≡ₚ a :: rs →
                      filter (λ b, localeCompare (title a) (title b) = 0) l = l).
  { intros l Hl. apply filter_all. intros b Hb. rewrite Hl in Hb.
    apply Hties; [by left | done]. }
  split.
  - rewrite <-(Hall (arraySort compareAz (a :: rs)))
      by apply arraySort_Permutation.
    rewrite <-(Hall (a :: rs)) at 2 by done.
    apply (arraySort_stable compareAz compareAz_sgn compareAz_trans a).
  - rewrite <-(Hall (arraySort compareZa (a :: rs)))
      by apply arraySort_Permutation.
    rewrite <-(Hall (a :: rs)) at 2 by done.
    apply arraySort_za_stable.
Qed.

#[local] Instance ordered_az_trans : Transitive (ordered compareAz).
Proof. intros a b c. apply compareAz_trans. Qed.

#[local] Instance ordered_za_trans : Transitive (ordered compareZa).
Proof. intros a b c. apply compareZa_trans. Qed.

(** X14. Without ties the sorted order does not depend on the order the
    records come in: two arrangements of the same records, with pairwise
    distinct titles that the collation tells apart, sort to the same
    sequence, in mode [az] and in mode [za]. *)
Theorem sorted_order_is_canonical (h h' : heap) (f f' : loc)
    (rs rs' : list ProjectRecord) :
  h !! f = Some rs → h' !! f' = Some rs' →
  rs ≡ₚ rs' →
  NoDup (title <$> rs) →
  (∀ a b, a ∈ rs → b ∈ rs →
          localeCompare (title a) (title b) = 0 → title a = title b) →
  deref (sortStep "az" h f) f = deref (sortStep "az" h' f') f'
  ∧ deref (sortStep "za" h f) f = deref (sortStep "za" h' f') f'.
Proof.
  intros Hf Hf' Hperm Hdistinct Hapart.
  rewrite !sortStep_az, !sortStep_za.
  rewrite (deref_Some h f rs Hf), (deref_Some h' f' rs' Hf').
  assert (Hanti : ∀ a b, a ∈ rs → b ∈ rs →
                         localeCompare (title a) (title b) <= 0 →
                         localeCompare (title b) (title a) <= 0 → a = b).
  { intros a b Ha Hb Hab Hba. apply (title_inj_on rs); try done.
    apply Hapart; try done.
    pose proof (localeCompare_sgn (title a) (title b)). lia. }
  split.
  - apply (Sorted_unique_strong (ordered compareAz)).
    + intros a b Ha Hb. rewrite arraySort_Permutation in Ha.
      rewrite arraySort_Permutation, <-Hperm in Hb. by apply Hanti.
    + apply (arraySort_Sorted compareAz compareAz_sgn).
    + apply (arraySort_Sorted compareAz compareAz_sgn).
    + by rewrite !arraySort_Permutation.
  - apply (Sorted_unique_strong (ordered compareZa)).
    + intros a b Ha Hb Hab Hba. rewrite arraySort_Permutation in Ha.
      rewrite arraySort_Permutation, <-Hperm in Hb. by apply Hanti.
    + apply (arraySort_Sorted compareZa compareZa_sgn).
    + apply (arraySort_Sorted compareZa compareZa_sgn).
    + by rewrite !arraySort_Permutation.
Qed.

End SortOrder.

Lemma tied_titles_keep_order_witness :
  deref (@sortStep codeUnitCollator "az" {[ 2%positive := sameTitle ]} 2%positive)
        2%positive = sameTitle
  ∧ deref (@sortStep codeUnitCollator "za" {[ 2%positive := sameTitle ]} 2%positive)
          2%positive = sameTitle.
Proof.
  apply (@tied_titles_keep_order codeUnitCollator); [reflexivity|].
  intros a b Ha Hb. unfold sameTitle in Ha, Hb.
  rewrite !elem_of_cons, elem_of_nil in Ha, Hb.
  destruct Ha as [->|[->|[]]], Hb as [->|[->|[]]]; reflexivity.
Defined.

Lemma sorted_order_is_canonical_witness :
  deref (@sortStep codeUnitCollator "az" sampleHeap 2%positive) 2%positive
  = deref (@sortStep codeUnitCollator "az"
             {[ 3%positive := reverse twoProjects ]} 3%positive) 3%positive.
Proof.
  refine (proj1 (@sorted_order_is_canonical codeUnitCollator sampleHeap
                   {[ 3%positive := reverse twoProjects ]} 2%positive 3%positive
                   twoProjects (reverse twoProjects) eq_refl eq_refl _ _ _)).
  - symmetry. apply reverse_Permutation.
  - apply (bool_decide_unpack _). vm_compute. exact I.
  - intros a b Ha Hb. unfold twoProjects in Ha, Hb.
    rewrite !elem_of_cons, elem_of_nil in Ha, Hb.
    destruct Ha as [->|[->|[]]], Hb as [->|[->|[]]]; vm_compute; congruence.
Defined.

(** ** The pagination buttons *)

Lemma pageWindow_spec (totalPages page : Z) :
  1 ≤ page ≤ totalPages →
  1 ≤ (pageWindow totalPages page).1 ≤ page
  ∧ page ≤ (pageWindow totalPages page).2 ≤ totalPages
  ∧ (pageWindow totalPages page).2 - (pageWindow totalPages page).1 + 1
    = Z.min 5 totalPages.
Proof.
  intros Hpage. unfold pageWindow, maxVisible. cbn [fst snd].
  change (5 `div` 2) with 2. case_decide; lia.
Qed.

(** X15. For a current page among [totalPages] pages, the numbered buttons
    run over a window that contains the current page, stays within the
    pages, and has five buttons, or all the pages when there are fewer than
    five; away from both ends the current page is in its middle. *)
Theorem pageWindow_bounds (totalPages page : Z) :
  1 ≤ page ≤ totalPages →
  let startPage := (pageWindow totalPages page).1 in
  let endPage := (pageWindow totalPages page).2 in
  1 ≤ startPage ≤ page ∧ page ≤ endPage ≤ totalPages
  ∧ endPage - startPage + 1 = Z.min 5 totalPages
  ∧ (3 ≤ page ≤ totalPages - 2 → startPage = page - 2 ∧ endPage = page + 2).
Proof.
  intros Hpage. unfold pageWindow, maxVisible. cbn [fst snd].
  change (5 `div` 2) with 2. case_decide; lia.
Qed.

Lemma listedPages_app l1 l2 :
  listedPages (l1 ++ l2) = listedPages l1 ++ listedPages l2.
Proof. apply omap_app. Qed.

Lemma listedPages_window (page : Z) (l : list Z) :
  listedPages ((λ i, PageButton i (bool_decide (i = page))) <$> l) = l.
Proof.
  induction l as [|i l IH]; [done|].
  rewrite fmap_cons. unfold listedPages in *. cbn [omap list_omap].
  by rewrite IH.
Qed.

Lemma activePages_app l1 l2 :
  activePages (l1 ++ l2) = activePages l1 ++ activePages l2.
Proof. apply omap_app. Qed.

Lemma activePages_window (page : Z) (l : list Z) :
  activePages ((λ i, PageButton i (bool_decide (i = page))) <$> l)
  = filter (λ i, i = page) l.
Proof.
  induction l as [|i l IH]; [done|].
  rewrite fmap_cons, filter_cons. unfold activePages in *.
  cbn [omap list_omap]. rewrite IH. case_decide.
  - by rewrite bool_decide_eq_true_2 by done.
  - by rewrite bool_decide_eq_false_2 by done.
Qed.

(** The page numbers with a button: 1 if the window starts later, the
    window, the last page if the window ends earlier. *)
Lemma listedPages_pagerItems totalPages page :
  listedPages (pagerItems totalPages page)
  = (if decide ((pageWindow totalPages page).1 > 1) then [1] else [])
    ++ seqZ (pageWindow totalPages page).1
            ((pageWindow totalPages page).2 - (pageWindow totalPages page).1 + 1)
    ++ (if decide ((pageWindow totalPages page).2 < totalPages)
        then [totalPages] else []).
Proof.
  unfold pagerItems. destruct (pageWindow totalPages page) as [s e].
  cbn [fst snd]. rewrite !listedPages_app, listedPages_window.
  repeat case_decide; done.
Qed.

Lemma activePages_pagerItems totalPages page :
  activePages (pagerItems totalPages page)
  = filter (λ i, i = page)
      (seqZ (pageWindow totalPages page).1
            ((pageWindow totalPages page).2 - (pageWindow totalPages page).1 + 1)).
Proof.
  unfold pagerItems. destruct (pageWindow totalPages page) as [s e].
  cbn [fst snd]. rewrite !activePages_app, activePages_window.
  repeat case_decide; simpl; by rewrite ?app_nil_r.
Qed.

Lemma seqZ_Sorted (m n : Z) : StronglySorted Z.lt (seqZ m n).
Proof.
  destruct (decide (n ≤ 0)) as [Hn|Hn]; [rewrite seqZ_nil by done; constructor|].
  rewrite <-(Z2Nat.id n) by lia. generalize (Z.to_nat n). clear n Hn.
  intros k. revert m. induction k as [|k IH]; intros m.
  - rewrite seqZ_nil by done. constructor.
  - rewrite seqZ_cons by lia. constructor.
    + replace (Z.pred (Z.of_nat (S k))) with (Z.of_nat k) by lia. apply IH.
    + apply Forall_forall. intros i Hi. apply elem_of_seqZ in Hi. lia.
Qed.

Lemma filter_eq_seqZ (m n page : Z) :
  m ≤ page < m + n → filter (λ i, i = page) (seqZ m n) = [page].
Proof.
  intros Hpage.
  replace n with ((page - m) + (1 + (m + n - page - 1))) by lia.
  rewrite seqZ_app, filter_app by lia.
  rewrite (seqZ_cons (m + (page - m))) by lia.
  replace (m + (page - m)) with page by lia.
  rewrite filter_cons_True by done.
  assert (Hnone : ∀ l : list Z, (∀ i, i ∈ l → i ≠ page) →
                                filter (λ i, i = page) l = []).
  { intros l Hl. induction l as [|i l IH]; [done|].
    rewrite filter_cons_False by (apply Hl; left).
    apply IH. intros j Hj. apply Hl. by right. }
  rewrite !Hnone; [done | |]; intros i Hi; apply elem_of_seqZ in Hi; lia.
Qed.

Lemma elem_of_choice {A} (P : Prop) `{Decision P} (x y : A) :
  x ∈ (if decide P then [y] else []) ↔ P ∧ x = y.
Proof.
  case_decide.
  - rewrite list_elem_of_singleton. tauto.
  - rewrite elem_of_nil. tauto.
Qed.

Lemma elem_of_listed (s e totalPages i : Z) :
  i ∈ (if decide (s > 1) then [1] else [])
      ++ seqZ s (e - s + 1)
      ++ (if decide (e < totalPages) then [totalPages] else [])
  ↔ (s > 1 ∧ i = 1) ∨ s ≤ i ≤ e ∨ (e < totalPages ∧ i = totalPages).
Proof. rewrite !elem_of_app, !elem_of_choice, elem_of_seqZ. lia. Qed.

(** X16. For a current page among the pages, the numbered buttons carry
    strictly increasing page numbers, all of them pages; page 1, the current
    page and the last page each have a button; there are at most seven
    numbered buttons; and exactly one button is marked active, the current
    page's. *)
Theorem pager_buttons (totalPages page : Z) :
  1 ≤ page ≤ totalPages →
  let pages := listedPages (pagerItems totalPages page) in
  StronglySorted Z.lt pages
  ∧ (∀ i, i ∈ pages → 1 ≤ i ≤ totalPages)
  ∧ 1 ∈ pages ∧ page ∈ pages ∧ totalPages ∈ pages
  ∧ (length pages ≤ 7)%nat
  ∧ activePages (pagerItems totalPages page) = [page].
Proof.
  intros Hpage pages. subst pages.
  rewrite listedPages_pagerItems, activePages_pagerItems.
  destruct (pageWindow_spec totalPages page Hpage) as (Hs & He & Hsize).
  destruct (pageWindow totalPages page) as [s e]. cbn [fst snd] in *.
  split; [|split; [|split; [|split; [|split; [|split]]]]].
  - apply StronglySorted_app_2; [| |apply StronglySorted_app_2].
    + intros i j. rewrite elem_of_choice, elem_of_app, elem_of_choice, elem_of_seqZ.
      lia.
    + case_decide; repeat constructor.
    + intros i j. rewrite elem_of_choice, elem_of_seqZ. lia.
    + apply seqZ_Sorted.
    + case_decide; repeat constructor.
  - intros i. rewrite elem_of_listed. lia.
  - rewrite elem_of_listed. lia.
  - rewrite elem_of_listed. lia.
  - rewrite elem_of_listed. lia.
  - rewrite !length_app, length_seqZ. repeat case_decide; simpl; lia.
  - apply filter_eq_seqZ. lia.
Qed.

Lemma ellipsis_drawn totalPages page :
  EllipsisMark ∈ pagerItems totalPages page
  ↔ (pageWindow totalPages page).1 > 2
    ∨ (pageWindow totalPages page).2 < totalPages - 1.
Proof.
  unfold pagerItems. destruct (pageWindow totalPages page) as [s e].
  cbn [fst snd].
  assert (Hwindow : EllipsisMark
                    ∉ (λ i, PageButton i (bool_decide (i = page)))
                      <$> seqZ s (e - s + 1)).
  { intros (i & ? & _)%list_elem_of_fmap. done. }
  destruct (decide (s > 1)), (decide (s > 2)), (decide (e < totalPages)),
    (decide (e < totalPages - 1));
    rewrite ?elem_of_app, ?elem_of_cons, ?elem_of_nil;
    (split; [intros Hin | intros Hwhy; try lia]);
    repeat match goal with
           | Hor : _ ∨ _ |- _ => destruct Hor as [Hor|Hor]
           end;
    try done; try lia; auto 10.
Qed.

(** X17. An ellipsis is drawn exactly when some page has no button. *)
Theorem ellipsis_iff_hidden_page (totalPages page : Z) :
  1 ≤ page ≤ totalPages →
  EllipsisMark ∈ pagerItems totalPages page
  ↔ ∃ i, 1 ≤ i ≤ totalPages ∧ i ∉ listedPages (pagerItems totalPages page).
Proof.
  intros Hpage. rewrite ellipsis_drawn, listedPages_pagerItems.
  destruct (pageWindow_spec totalPages page Hpage) as (Hs & He & Hsize).
  destruct (pageWindow totalPages page) as [s e]. cbn [fst snd] in *.
  split.
  - intros [Hlt|Hgt].
    + exists 2. rewrite elem_of_listed. lia.
    + exists (e + 1). rewrite elem_of_listed. lia.
  - intros (i & Hi & Hhidden). rewrite elem_of_listed in Hhidden. lia.
Qed.

(** What the buttons drawn for the current page can be. *)
Lemma pagerItems_item totalPages page item :
  1 ≤ page ≤ totalPages →
  item ∈ pagerItems totalPages page →
  match item with
  | PrevButton disabled => disabled = bool_decide (page = 1)
  | PageButton i _ => 1 ≤ i ≤ totalPages
  | EllipsisMark => True
  | NextButton disabled => disabled = bool_decide (page = totalPages)
  end.
Proof.
  intros Hpage Hitem.
  destruct (pageWindow_spec totalPages page Hpage) as (Hs & He & Hsize).
  unfold pagerItems in Hitem.
  destruct (pageWindow totalPages page) as [s e]. cbn [fst snd] in *.
  rewrite !elem_of_app in Hitem.
  destruct Hitem as [Hitem|[Hitem|[Hitem|[Hitem|Hitem]]]].
  - by apply list_elem_of_singleton in Hitem as ->.
  - case_decide; [|by apply elem_of_nil in Hitem].
    apply elem_of_cons in Hitem as [->|Hitem]; [lia|].
    case_decide; [|by apply elem_of_nil in Hitem].
    by apply list_elem_of_singleton in Hitem as ->.
  - apply list_elem_of_fmap in Hitem as (i & -> & Hi).
    apply elem_of_seqZ in Hi. lia.
  - case_decide; [|by apply elem_of_nil in Hitem].
    apply elem_of_app in Hitem as [Hitem|Hitem].
    + case_decide; [|by apply elem_of_nil in Hitem].
      by apply list_elem_of_singleton in Hitem as ->.
    + apply list_elem_of_singleton in Hitem as ->. lia.
  - by apply list_elem_of_singleton in Hitem as ->.
Qed.

Section Navigation.
Context `{Collator}.

Lemma render_pageInRange st :
  1 ≤ currentPage st →
  (∀ totalPages page,
     pagination_controls (document st) = Some (Controls totalPages page) →
     containerFound st = true) →
  pageInRange (renderProjects st).
Proof.
  intros Hpage Hdrawn.
  destruct (renderProjects_vars st) as (Hcur & _).
  split; [by rewrite Hcur|]. intros t p Hview. rewrite Hcur.
  destruct (containerFound st) eqn:Hfound.
  - destruct (renderProjects_document st Hfound) as [Hdoc Hvar].
    split; [unfold containerFound; by rewrite Hvar|].
    rewrite Hdoc in Hview. simpl in Hview.
    destruct (pagination_controls (document st)); [|done].
    injection Hview as Hview. unfold shownControls in Hview.
    pose proof (page_empty_iff (workingArray st) (currentPage st) Hpage)
      as Hempty.
    destruct ((paginate (workingArray st) itemsPerPage (currentPage st)).1)
      as [|item items]; [done|].
    match type of Hview with context [decide ?P] =>
      destruct (decide P) as [|Hmany]; [discriminate Hview|]
    end.
    injection Hview as <- <-. split; [done|].
    assert (Hnine : 0 < 9) by lia.
    pose proof (ceilDiv_bounds (Z.of_nat (length (workingArray st))) 9 Hnine)
      as Hceil.
    assert (Hlt : (currentPage st - 1) * itemsPerPage
                  < Z.of_nat (length (workingArray st))).
    { destruct (decide ((currentPage st - 1) * itemsPerPage
                        < Z.of_nat (length (workingArray st)))); [done|].
      destruct Hempty as [_ Hempty]. by discriminate Hempty; lia. }
    unfold paginate, itemsPerPage in *. cbn [snd]. nia.
  - rewrite renderProjects_not_found in Hview by done.
    by specialize (Hdrawn t p Hview).
Qed.

Lemma dispatch_pageInRange st ev : pageInRange st → pageInRange (dispatch st ev).
Proof.
  intros Hst. pose proof Hst as [Hpage Hdrawn].
  assert (Hfound : ∀ t p,
            pagination_controls (document st) = Some (Controls t p) →
            containerFound st = true) by (intros t p Hv; by destruct (Hdrawn t p Hv)).
  destruct ev as [text|mode|i|]; simpl.
  - destruct (project_search (document st)); [|done].
    by apply render_pageInRange.
  - destruct (project_sort (document st)); [|done].
    by apply render_pageInRange.
  - destruct (filter_btns (document st) !! i); [|done].
    by apply render_pageInRange.
  - destruct (clear_filters (document st)); [|done].
    by apply render_pageInRange.
Qed.

Lemma clickPager_pageInRange st k : pageInRange st → pageInRange (clickPager k st).
Proof.
  intros Hst. pose proof Hst as [Hpage Hdrawn]. unfold clickPager.
  destruct (pagination_controls (document st)) as [[|t p]|] eqn:Hview;
    [by destruct k| |done].
  simpl. destruct (pagerItems t p !! k) as [item|] eqn:Hitem; [|done].
  destruct (Hdrawn t p eq_refl) as (Hfound & -> & Hle).
  apply list_elem_of_lookup_2 in Hitem.
  apply pagerItems_item in Hitem; [|lia].
  assert (Hkeep : ∀ q, 1 ≤ q →
            pageInRange (renderProjects (set_currentPage q st))).
  { intros q Hq. apply render_pageInRange; [done|].
    intros t' p' Hv. exact Hfound. }
  destruct item as [[]|i active| |[]]; simpl; try done.
  - apply Hkeep. symmetry in Hitem. apply bool_decide_eq_false in Hitem. lia.
  - apply Hkeep. lia.
  - apply Hkeep. lia.
Qed.

Lemma updateCategoryCounts_pageInRange st :
  pageInRange st → pageInRange (updateCategoryCounts st).
Proof.
  unfold updateCategoryCounts.
  by destruct (deref (arrays st) (allProjectsData st)).
Qed.

Lemma settled_pageInRange st r :
  pageInRange st → pageInRange (fetchProjectsSettled r st).
Proof.
  intros Hst. pose proof Hst as [Hpage Hdrawn].
  assert (Hfound : ∀ t p,
            pagination_controls (document st) = Some (Controls t p) →
            containerFound st = true) by (intros t p Hv; by destruct (Hdrawn t p Hv)).
  destruct r as [| |data]; simpl.
  - destruct (projectsContainer st) eqn:Hvar; [|done].
    split; [done|]. intros t p Hv. simpl in Hv.
    destruct (Hdrawn t p Hv) as (_ & ? & ?).
    split; [|done]. unfold containerFound. simpl. by rewrite Hvar.
  - destruct (projectsContainer st) eqn:Hvar; [|done].
    split; [done|]. intros t p Hv. simpl in Hv.
    destruct (Hdrawn t p Hv) as (_ & ? & ?).
    split; [|done]. unfold containerFound. simpl. by rewrite Hvar.
  - apply updateCategoryCounts_pageInRange. by apply render_pageInRange.
Qed.

(** X18. Through every sequence of user events, clicks in the pagination
    container and settlings of the projects request, the current page stays
    at least 1, and controls that are drawn were drawn for the current
    page, which is at most the number of pages they were drawn for. *)
Theorem page_stays_in_range (st : App) (steps : list Interaction) :
  pageInRange st → pageInRange (foldl interact st steps).
Proof.
  revert st. induction steps as [|step steps IH]; intros st Hst; [done|].
  simpl. apply IH. destruct step as [ev|k|r]; simpl.
  - by apply dispatch_pageInRange.
  - by apply clickPager_pageInRange.
  - by apply settled_pageInRange.
Qed.

End Navigation.

Lemma pageWindow_bounds_witness :
  (pageWindow 10 5).1 = 3 ∧ (pageWindow 10 5).2 = 7.
Proof.
  destruct (pageWindow_bounds 10 5 ltac:(lia)) as (_ & _ & _ & Hmiddle).
  apply Hmiddle. lia.
Defined.

Lemma pager_buttons_witness :
  activePages (pagerItems 10 5) = [5].
Proof.
  destruct (pager_buttons 10 5 ltac:(lia)) as (_ & _ & _ & _ & _ & _ & Hactive).
  exact Hactive.
Defined.

Lemma ellipsis_iff_hidden_page_witness :
  EllipsisMark ∈ pagerItems 10 5.
Proof.
  apply (ellipsis_iff_hidden_page 10 5 ltac:(lia)).
  exists 2. split; [lia|]. vm_compute.
  intros Hin. repeat (apply elem_of_cons in Hin as [Hin|Hin]; [discriminate|]).
  by apply elem_of_nil in Hin.
Defined.

Lemma page_stays_in_range_witness :
  1 ≤ currentPage
        (foldl (@interact codeUnitCollator)
           (initializeApp (initialApp samplePage))
           [RequestSettles (Parsed twentyProjects); PagerClicked 2;
            UserDoes ClickClear]).
Proof.
  apply (@page_stays_in_range codeUnitCollator).
  split; [vm_compute; discriminate|].
  intros t p Hview. vm_compute in Hview. discriminate.
Defined.

(** ** The highlighted filter button *)

Lemma activate_lookup chosen btns j b :
  activate chosen btns !! j = Some b ↔
  ∃ b0, btns !! j = Some b0
        ∧ b = {| data_filter := data_filter b0;
                 active := bool_decide (j = chosen);
                 shownCount := shownCount b0 |}.
Proof.
  unfold activate. rewrite list_lookup_imap.
  destruct (btns !! j) as [b0|]; simpl.
  - split; [intros [= <-]; eauto | intros (? & [= <-] & ->); done].
  - split; [done | intros (? & ? & _); done].
Qed.

Lemma allBtn_Some btns i :
  allBtn btns = Some i → ∃ b, btns !! i = Some b ∧ data_filter b = "all".
Proof.
  unfold allBtn. destruct (list_find _ btns) as [[j b]|] eqn:Hfind; [|done].
  intros [= <-]. apply list_find_Some in Hfind as (? & ? & _). eauto.
Qed.

Section Highlight.
Context `{Collator}.

(** X19. A click on a filter button makes its category the current one and
    leaves exactly that button highlighted; the clear-filters button leaves
    highlighted exactly the first button named [all], if there is one; in
    both cases every button keeps its name and its label. *)
Theorem one_button_highlighted (st : App) (i : nat) (btn : FilterButton) :
  filter_btns (document st) !! i = Some btn →
  (currentCategory (dispatch st (ClickFilter i)) = data_filter btn
   ∧ ∀ j b, filter_btns (document (dispatch st (ClickFilter i))) !! j = Some b →
       active b = bool_decide (j = i)
       ∧ ∃ b0, filter_btns (document st) !! j = Some b0
               ∧ data_filter b = data_filter b0
               ∧ shownCount b = shownCount b0)
  ∧ (clear_filters (document st) = true →
     currentCategory (dispatch st ClickClear) = "all"
     ∧ ∀ j b, filter_btns (document (dispatch st ClickClear)) !! j = Some b →
         active b = bool_decide (allBtn (filter_btns (document st)) = Some j)
         ∧ ∃ b0, filter_btns (document st) !! j = Some b0
                 ∧ data_filter b = data_filter b0
                 ∧ shownCount b = shownCount b0).
Proof.
  intros Hbtn. split.
  - simpl. rewrite Hbtn. unfold filterClickHandler.
    match goal with |- context [renderProjects ?s] =>
      destruct (renderProjects_vars s)
        as (_ & Hcat & _ & _ & _ & _ & _ & _ & Hbtns & _)
    end.
    split; [by rewrite Hcat|].
    intros j b. rewrite Hbtns. simpl. rewrite activate_lookup.
    intros (b0 & Hb0 & ->). simpl. eauto.
  - intros Hclear. simpl. rewrite Hclear. unfold clearHandler.
    match goal with |- context [renderProjects ?s] =>
      destruct (renderProjects_vars s)
        as (_ & Hcat & _ & _ & _ & _ & _ & _ & Hbtns & _)
    end.
    split; [by rewrite Hcat|].
    intros j b. rewrite Hbtns. simpl.
    destruct (allBtn (filter_btns (document st))) as [k|] eqn:Hall.
    + rewrite activate_lookup. intros (b0 & Hb0 & ->). simpl. split; [|eauto].
      apply bool_decide_ext. split; [by intros -> | by intros [= ->]].
    + unfold deactivateAll. rewrite list_lookup_fmap.
      destruct (filter_btns (document st) !! j) as [b0|]; [|done].
      intros [= <-]. simpl. split; [done|eauto].
Qed.

Lemma render_highlight st :
  highlightNamesCategory st → highlightNamesCategory (renderProjects st).
Proof.
  unfold highlightNamesCategory.
  destruct (renderProjects_vars st)
    as (_ & -> & _ & _ & _ & _ & _ & _ & -> & _). done.
Qed.

Lemma activate_highlight chosen btns btn b :
  btns !! chosen = Some btn →
  b ∈ activate chosen btns → active b = true → data_filter b = data_filter btn.
Proof.
  intros Hbtn Hb Hactive. apply list_elem_of_lookup in Hb as [j Hj].
  apply activate_lookup in Hj as (b0 & Hb0 & ->). simpl in *.
  apply bool_decide_eq_true in Hactive as ->. congruence.
Qed.

Lemma dispatch_highlight st ev :
  highlightNamesCategory st → highlightNamesCategory (dispatch st ev).
Proof.
  intros Hst. destruct ev as [text|mode|i|]; simpl.
  - destruct (project_search (document st)); [|done].
    by apply render_highlight.
  - destruct (project_sort (document st)); [|done].
    by apply render_highlight.
  - destruct (filter_btns (document st) !! i) as [btn|] eqn:Hbtn; [|done].
    apply render_highlight. intros b Hb Hactive. simpl in *.
    by apply (activate_highlight i (filter_btns (document st))).
  - destruct (clear_filters (document st)); [|done].
    apply render_highlight. intros b Hb Hactive. simpl in *.
    destruct (allBtn (filter_btns (document st))) as [k|] eqn:Hall.
    + apply allBtn_Some in Hall as (b1 & Hb1 & <-).
      by apply (activate_highlight k (filter_btns (document st))).
    + unfold deactivateAll in Hb.
      apply list_elem_of_fmap in Hb as (b0 & -> & _). done.
Qed.

Lemma updateCategoryCounts_highlight st :
  highlightNamesCategory st → highlightNamesCategory (updateCategoryCounts st).
Proof.
  intros Hst. unfold updateCategoryCounts.
  destruct (deref (arrays st) (allProjectsData st)); [done|].
  intros b Hb Hactive. simpl in *.
  apply list_elem_of_fmap in Hb as (b0 & -> & Hb0). simpl in *. by apply Hst.
Qed.

(** X20. Through every sequence of user events, clicks in the pagination
    container and settlings of the projects request, a highlighted filter
    button names the current category. *)
Theorem highlight_follows_category (st : App) (steps : list Interaction) :
  highlightNamesCategory st →
  highlightNamesCategory (foldl interact st steps).
Proof.
  revert st. induction steps as [|step steps IH]; intros st Hst; [done|].
  simpl. apply IH. destruct step as [ev|k|r]; simpl.
  - by apply dispatch_highlight.
  - unfold clickPager.
    destruct (pagination_controls (document st)) as [v|]; [|done].
    destruct (drawnItems v !! k) as [[[]|page active| |[]]|]; simpl;
      try done; by apply render_highlight.
  - destruct r as [| |data]; simpl.
    + by destruct (projectsContainer st).
    + by destruct (projectsContainer st).
    + apply updateCategoryCounts_highlight. by apply render_highlight.
Qed.

End Highlight.

Lemma one_button_highlighted_witness :
  currentCategory (@dispatch codeUnitCollator galleryWithoutEngine (ClickFilter 1))
  = "unknown".
Proof.
  exact (proj1 (proj1 (@one_button_highlighted codeUnitCollator
                         galleryWithoutEngine 1 _ eq_refl))).
Defined.

Lemma highlight_follows_category_witness :
  highlightNamesCategory
    (foldl (@interact codeUnitCollator) galleryWithoutEngine
       [UserDoes (ClickFilter 1); UserDoes (TypeSearch "a"); UserDoes ClickClear]).
Proof.
  apply (@highlight_follows_category codeUnitCollator).
  intros b Hb Hactive. vm_compute in Hb.
  apply elem_of_cons in Hb as [->|Hb]; [reflexivity|].
  apply elem_of_cons in Hb as [->|Hb]; [discriminate|].
  by apply elem_of_nil in Hb.
Defined.

(** ** Every start-up interleaving *)

Lemma initializeApp_counters st :
  initializations (initializeApp st) = S (initializations st)
  ∧ projectFetches (initializeApp st) = S (projectFetches st)
  ∧ contributorFetches (initializeApp st)
    = (if contributors_grid (document st) then S (contributorFetches st)
       else contributorFetches st)
  ∧ document (initializeApp st) = document st.
Proof.
  unfold initializeApp, fetchContributors. simpl.
  by destruct (contributors_grid (document st)).
Qed.

Lemma initializeApp_fetchesFollow st :
  fetchesFollow st → fetchesFollow (initializeApp st).
Proof.
  intros [Hp Hc]. unfold fetchesFollow.
  destruct (initializeApp_counters st) as (-> & -> & -> & ->).
  rewrite Hp, Hc. by destruct (contributors_grid (document st)).
Qed.

Lemma startupStep_fetchesFollow s ev :
  fetchesFollow (app s) → fetchesFollow (app (startupStep s ev)).
Proof.
  intros Hs. destruct ev; simpl; case_decide;
    auto using initializeApp_fetchesFollow.
Qed.

Lemma runStartup_fetchesFollow evs s :
  fetchesFollow (app s) → fetchesFollow (app (runStartup evs s)).
Proof.
  unfold runStartup. revert s.
  induction evs as [|ev evs IH]; intros s Hs; simpl;
    auto using startupStep_fetchesFollow.
Qed.

Lemma runStartup_components (k : nat) s :
  componentsLoaded (runStartup (replicate k ComponentLoaded) s)
  = componentsLoaded s + Z.of_nat k
  ∧ initializations (app (runStartup (replicate k ComponentLoaded) s))
    = (initializations (app s)
       + (if decide ((componentsLoaded s < 6 ≤ componentsLoaded s + Z.of_nat k)%Z)
          then 1 else 0))%nat
  ∧ document (app (runStartup (replicate k ComponentLoaded) s))
    = document (app s).
Proof.
  unfold runStartup. revert s. induction k as [|k IH]; intros s.
  - simpl. rewrite decide_False by lia. split; [lia|]. split; [lia|done].
  - cbn [replicate foldl]. destruct (IH (startupStep s ComponentLoaded))
      as (-> & -> & ->).
    cbn [startupStep componentsLoaded app]. unfold totalComponents.
    split; [lia|].
    destruct (decide (componentsLoaded s + 1 = 6)) as [Hsix|Hnot].
    + destruct (initializeApp_counters (app s)) as (-> & _ & _ & ->).
      rewrite decide_False by lia. rewrite decide_True by lia.
      split; [lia|done].
    + split; [|done]. repeat case_decide; lia.
Qed.

(** X21. For every interleaving of the start-up events, [k] components
    loading before the fallback timer fires and [m] after it:
    [initializeApp] has not run before the timer unless six components
    loaded; once the timer has fired it has run once if the six came in time
    or never all came, and twice if the sixth came after the timer; never
    more. Each run issues one request for the projects, and one for the
    contributors when their grid is on the page. *)
Theorem startup_initializations (d : Document) (k m : nat) :
  let before := runStartup (replicate k ComponentLoaded) (startup d) in
  let after :=
    runStartup (replicate k ComponentLoaded ++ [FallbackTimeout]
                ++ replicate m ComponentLoaded) (startup d) in
  initializations (app before) = (if decide (6 ≤ k)%nat then 1 else 0)%nat
  ∧ initializations (app after)
    = (if decide (6 ≤ k)%nat then 1
       else if decide (6 ≤ k + m)%nat then 2 else 1)%nat
  ∧ projectFetches (app after) = initializations (app after)
  ∧ contributorFetches (app after)
    = (if contributors_grid d then initializations (app after) else 0)%nat.
Proof.
  intros before after.
  destruct (runStartup_components k (startup d)) as (Hcount & Hinit & Hdoc).
  fold before in Hcount, Hinit, Hdoc. simpl in Hcount, Hinit, Hdoc.
  assert (Hafter : after
                   = runStartup (replicate m ComponentLoaded)
                       (startupStep before FallbackTimeout)).
  { subst after before. unfold runStartup. by rewrite !foldl_app. }
  destruct (runStartup_components m (startupStep before FallbackTimeout))
    as (_ & Hinit' & Hdoc').
  rewrite <-Hafter in Hinit', Hdoc'.
  cbn [startupStep componentsLoaded app] in Hinit', Hdoc'.
  unfold totalComponents in *. rewrite Hcount in Hinit', Hdoc'.
  assert (Hfollow : fetchesFollow (app after)).
  { subst after. apply runStartup_fetchesFollow. split; [done|].
    simpl. by destruct (contributors_grid d). }
  assert (Hdocument : document (app after) = d).
  { rewrite Hdoc'. destruct (decide (0 + Z.of_nat k < 6)); [|done].
    by destruct (initializeApp_counters (app before)) as (_ & _ & _ & ->). }
  split; [|split].
  - rewrite Hinit. repeat case_decide; lia.
  - rewrite Hinit'. destruct (decide (0 + Z.of_nat k < 6)) as [Hlate|Hintime].
    + destruct (initializeApp_counters (app before)) as (-> & _).
      rewrite Hinit. repeat case_decide; lia.
    + rewrite Hinit. repeat case_decide; lia.
  - destruct Hfollow as [Hp Hc]. rewrite Hdocument in Hc. done.
Qed.

(** ** A successful load *)

Lemma updateCategoryCounts_vars st :
  arrays (updateCategoryCounts st) = arrays st
  ∧ allProjectsData (updateCategoryCounts st) = allProjectsData st
  ∧ visibilityEngine (updateCategoryCounts st) = visibilityEngine st
  ∧ currentPage (updateCategoryCounts st) = currentPage st
  ∧ currentCategory (updateCategoryCounts st) = currentCategory st
  ∧ currentSort (updateCategoryCounts st) = currentSort st
  ∧ projectFetches (updateCategoryCounts st) = projectFetches st.
Proof.
  unfold updateCategoryCounts.
  by destruct (deref (arrays st) (allProjectsData st)).
Qed.

Lemma updateCategoryCounts_shown st :
  shownCount <$> filter_btns (document (updateCategoryCounts st))
  = if decide (deref (arrays st) (allProjectsData st) = [])
    then shownCount <$> filter_btns (document st)
    else (λ b, Some (buttonCount (deref (arrays st) (allProjectsData st)) b))
         <$> filter_btns (document st).
Proof.
  unfold updateCategoryCounts.
  destruct (deref (arrays st) (allProjectsData st)) as [|p ps] eqn:Hps.
  - by rewrite decide_True.
  - rewrite decide_False by done. simpl. by rewrite <-list_fmap_compose.
Qed.

Section Load.
Context `{Collator}.

(** X22. When the projects request settles with a parsed array, the store
    variable refers to a new array holding exactly the parsed records, every
    array that was alive keeps its content, the engine is constructed over
    that same new array, the page, category and sort variables and the
    count of requests are what they were, and the filter buttons are
    labelled with their counts over the parsed records, unless the array is
    empty, in which case the labels stay. *)
Theorem load_installs_store (st : App) (data : list ProjectRecord) :
  let st' := fetchProjectsSettled (Parsed data) st in
  deref (arrays st') (allProjectsData st') = data
  ∧ arrays st !! allProjectsData st' = None
  ∧ (∀ l, is_Some (arrays st !! l) → arrays st' !! l = arrays st !! l)
  ∧ visibilityEngine st' = Some (Engine.construct (allProjectsData st'))
  ∧ currentPage st' = currentPage st
  ∧ currentCategory st' = currentCategory st
  ∧ currentSort st' = currentSort st
  ∧ projectFetches st' = projectFetches st
  ∧ shownCount <$> filter_btns (document st')
    = if decide (data = []) then shownCount <$> filter_btns (document st)
      else (λ b, Some (buttonCount data b)) <$> filter_btns (document st).
Proof.
  intros st'. subst st'. cbn [fetchProjectsSettled].
  pose proof (alloc_fresh (arrays st) data) as Hfresh.
  pose proof (alloc_lookup (arrays st) data) as Hnew.
  pose proof (λ l, alloc_frame (arrays st) data l) as Hframe.
  destruct (alloc (arrays st) data) as [l h]. cbn [fst snd] in *.
  set (st1 := set_visibilityEngine (Some (Engine.construct l))
                (set_allProjectsData l (set_arrays h st))).
  destruct (renderProjects_vars st1)
    as (Hpage & Hcat & Hsort & Hengine & Hdata & Hfetch & _ & _ & Hbtns & _).
  destruct (updateCategoryCounts_vars (renderProjects st1))
    as (Harrays' & Hdata' & Hengine' & Hpage' & Hcat' & Hsort' & Hfetch').
  assert (Hstore : arrays (renderProjects st1) !! l = Some data).
  { rewrite renderProjects_frame; [done | by eexists]. }
  assert (Hderef : deref (arrays (renderProjects st1))
                         (allProjectsData (renderProjects st1)) = data).
  { rewrite Hdata. unfold deref. simpl. by rewrite Hstore. }
  rewrite Harrays', Hdata', Hengine', Hpage', Hcat', Hsort', Hfetch'.
  rewrite Hpage, Hcat, Hsort, Hengine, Hdata, Hfetch.
  rewrite updateCategoryCounts_shown, Hderef, Hbtns.
  repeat split; try done.
  - by apply deref_Some.
  - intros k Hk. destruct (Hframe k Hk) as [Hsame _].
    rewrite renderProjects_frame; [exact Hsame|].
    change (arrays st1) with h. by rewrite Hsame.
Qed.

End Load.

(** ** Missing categories *)

(** The counts read a missing or empty category as ["unknown"], and so
    does the engine; the fallback filter of [renderProjects] reads it as
    [""]. *)
Lemma missing_category_readings p :
  truthy (category p) = None →
  categoryOr "unknown" p = "unknown"
  ∧ Engine.recordCategory p = "unknown"
  ∧ categoryOr "" p = "".
Proof.
  intros Hp. unfold categoryOr, Engine.recordCategory. by rewrite Hp.
Qed.

Lemma filedUnder_unknown ps :
  filedUnder "unknown" ps = length (filter (λ q, underUnknown q = true) ps).
Proof.
  unfold filedUnder. f_equal. apply list_filter_iff. intros q.
  unfold categoryOr, underUnknown. destruct (truthy (category q)) as [c|].
  - by rewrite bool_decide_eq_true.
  - done.
Qed.

Section Life.
Context `{Collator}.

Lemma engineReadsStore_same st st1 :
  arrays st1 = arrays st →
  allProjectsData st1 = allProjectsData st →
  Engine.projects <$> visibilityEngine st1
  = Engine.projects <$> visibilityEngine st →
  engineReadsStore st → engineReadsStore st1.
Proof.
  intros Ha Hd He [Hlive Hst]. unfold engineReadsStore. rewrite Ha, Hd.
  split; [done|].
  destruct (visibilityEngine st1), (visibilityEngine st); simpl in He;
    try done. by injection He as ->.
Qed.

Lemma render_engineReadsStore st :
  engineReadsStore st → engineReadsStore (renderProjects st).
Proof.
  intros [Hlive Hst]. unfold engineReadsStore.
  destruct (renderProjects_vars st) as (_ & _ & _ & -> & -> & _).
  unfold deref. rewrite (renderProjects_frame st _ Hlive). by split.
Qed.

Lemma dispatch_engineReadsStore st ev :
  engineReadsStore st → engineReadsStore (dispatch st ev).
Proof.
  intros Hst. destruct ev as [text|mode|i|]; simpl.
  - destruct (project_search (document st)); [|done].
    apply render_engineReadsStore.
    apply (engineReadsStore_same st); try done.
    simpl. by destruct (visibilityEngine st).
  - destruct (project_sort (document st)); [|done].
    apply render_engineReadsStore.
    by apply (engineReadsStore_same st).
  - destruct (filter_btns (document st) !! i); [|done].
    apply render_engineReadsStore.
    apply (engineReadsStore_same st); try done.
    simpl. by destruct (visibilityEngine st).
  - destruct (clear_filters (document st)); [|done].
    apply render_engineReadsStore.
    apply (engineReadsStore_same st); try done.
    simpl. by destruct (visibilityEngine st).
Qed.

Lemma clickPager_engineReadsStore st k :
  engineReadsStore st → engineReadsStore (clickPager k st).
Proof.
  intros Hst. unfold clickPager.
  destruct (pagination_controls (document st)) as [v|]; [|done].
  destruct (drawnItems v !! k) as [[[]|page active| |[]]|]; simpl; try done;
    apply render_engineReadsStore; by apply (engineReadsStore_same st).
Qed.

Lemma settled_engineReadsStore st r :
  engineReadsStore st → engineReadsStore (fetchProjectsSettled r st).
Proof.
  intros Hst. destruct r as [| |data]; cbn [fetchProjectsSettled].
  - destruct (projectsContainer st); [|done].
    by apply (engineReadsStore_same st).
  - destruct (projectsContainer st); [|done].
    by apply (engineReadsStore_same st).
  - pose proof (alloc_lookup (arrays st) data) as Hnew.
    destruct (alloc (arrays st) data) as [l h]. cbn [fst snd] in Hnew.
    match goal with |- engineReadsStore (updateCategoryCounts ?s) =>
      apply (engineReadsStore_same s)
    end.
    + apply updateCategoryCounts_vars.
    + apply updateCategoryCounts_vars.
    + f_equal. apply updateCategoryCounts_vars.
    + apply render_engineReadsStore. split; simpl; [by rewrite Hnew | done].
Qed.

Lemma interact_engineReadsStore st i :
  engineReadsStore st → engineReadsStore (interact st i).
Proof.
  destruct i as [ev|k|r]; simpl;
    auto using dispatch_engineReadsStore, clickPager_engineReadsStore,
               settled_engineReadsStore.
Qed.

Lemma initializeApp_engineReadsStore st :
  engineReadsStore st → engineReadsStore (initializeApp st).
Proof.
  apply engineReadsStore_same; unfold initializeApp, fetchContributors; simpl;
    by destruct (contributors_grid (document st)).
Qed.

Lemma pageStep_engineReadsStore s ev :
  engineReadsStore (app s) → engineReadsStore (app (pageStep s ev)).
Proof.
  intros Hs. destruct ev as [[]|i]; simpl.
  - case_decide; [by apply initializeApp_engineReadsStore | done].
  - case_decide; [by apply initializeApp_engineReadsStore | done].
  - case_decide; [done|]. by apply interact_engineReadsStore.
Qed.

(** Through the whole life of the page the store and the engine go
    together; in particular records are loaded only with an engine over
    them, and the fallback filter meets nothing but the empty store. *)
Lemma runPage_engineReadsStore evs d :
  engineReadsStore (app (runPage evs d)).
Proof.
  unfold runPage.
  assert (Hstart : engineReadsStore (app (startup d))).
  { split; [by eexists | done]. }
  revert Hstart. generalize (startup d). 
  induction evs as [|ev evs IH]; intros s Hs; [done|].
  simpl. apply IH. by apply pageStep_engineReadsStore.
Qed.

(** C8. On the running page, after any start-up events and interactions,
    a record of the store without a category, or with an empty one, is
    treated as a record of category ["unknown"] by every comparison made
    on it. The counts file it under the key [unknown]: a button [unknown]
    is labelled with the number of records that have no category or whose
    category reads [unknown] in lowercase, the record among them. And a
    render filters it through the engine, which exists and reads the store
    as soon as the store holds a record: the record is among the records the
    render sorts and pages exactly when the engine's category is ["all"] or
    reads [unknown] in lowercase and its title passes the search. The
    fallback filter, which would compare it as [""], runs only without an
    engine, and so never on a store that holds a record. *)
Theorem missing_category_counts_as_unknown
    (d : Document) (evs : list PageEvent) (p : ProjectRecord) (b : FilterButton) :
  let st := app (runPage evs d) in
  let store := deref (arrays st) (allProjectsData st) in
  p ∈ store →
  truthy (category p) = None →
  toLowerCase (data_filter b) = "unknown" →
  buttonCount store b
  = Prim (Num (length (filter (λ q, underUnknown q = true) store)))
  ∧ p ∈ filter (λ q, underUnknown q = true) store
  ∧ ∃ e, visibilityEngine st = Some e
         ∧ Engine.projects e = allProjectsData st
         ∧ (p ∈ workingArray st
            ↔ (Engine.category e = "all"
               ∨ toLowerCase (Engine.category e) = "unknown")
              ∧ searchPredicate e p).
Proof.
  intros st store Hp Hmissing Hb.
  destruct (runPage_engineReadsStore evs d) as [Hlive Hst]. fold st in Hlive, Hst.
  assert (Hin : p ∈ filter (λ q, underUnknown q = true) store).
  { apply list_elem_of_filter. split; [|done].
    unfold underUnknown. by rewrite Hmissing. }
  split; [|split; [done|]].
  - rewrite buttonCount_value. cbv zeta. rewrite Hb. simpl.
    by rewrite filedUnder_unknown.
  - destruct (visibilityEngine st) as [e|] eqn:He.
    + exists e. split; [done|]. split; [done|].
      rewrite workingArray_content; rewrite He.
      * rewrite sortItems_Permutation.
        unfold Engine.getVisibleProjects. rewrite Hst.
        rewrite list_elem_of_filter, visible_spec.
        unfold categoryPredicate.
        destruct (missing_category_readings p Hmissing) as (_ & -> & _).
        rewrite toLowerCase_unknown. fold store.
        split.
        -- intros [[Hcat Hsearch] _]. split; [|done].
           destruct Hcat as [Hall|Hcat]; auto.
        -- intros [Hcat Hsearch]. split; [split; [|done]|done].
           destruct Hcat as [Hall|Hcat]; auto.
      * intros e' [= <-]. by rewrite Hst.
    + fold store in Hst. rewrite Hst in Hp. by apply elem_of_nil in Hp.
Qed.

End Life.

Lemma missing_category_counts_as_unknown_witness :
  buttonCount twoProjects
    {| data_filter := "unknown"; active := false; shownCount := None |}
  = Prim (Num 1)
  ∧ sampleProject "Alpha" None
    ∈ @workingArray codeUnitCollator
        (app (@runPage codeUnitCollator unknownChosen samplePage)).
Proof.
  assert (Hin : sampleProject "Alpha" None
                ∈ deref (arrays (app (@runPage codeUnitCollator unknownChosen
                                        samplePage)))
                        (allProjectsData (app (@runPage codeUnitCollator
                                                 unknownChosen samplePage)))).
  { vm_compute. apply elem_of_cons. right. apply elem_of_cons. by left. }
  destruct (@missing_category_counts_as_unknown codeUnitCollator samplePage
              unknownChosen (sampleProject "Alpha" None)
              {| data_filter := "unknown"; active := false; shownCount := None |}
              Hin eq_refl eq_refl)
    as (Hcount & _ & e & He & _ & Hlisted).
  split; [exact Hcount|]. apply Hlisted.
  vm_compute in He. injection He as <-. split; [by right | by left].
Defined.

(** ** The theme *)

(** X23. A toggle leaves the theme [light] or [dark], saved under the same
    name, with the matching icon; from [light] it goes to [dark] and from
    anything else, a theme name it does not know included, to [light]; two
    more toggles come back to the same theme. *)
Theorem toggle_alternates (s : ThemePage) :
  is_Some (toggle_mode_btn s) →
  let s1 := toggleTheme s in
  (data_theme s1 = Some "light" ∨ data_theme s1 = Some "dark")
  ∧ storedTheme s1 = data_theme s1
  ∧ iconMatches s1
  ∧ (data_theme s = Some "light" → data_theme s1 = Some "dark")
  ∧ (data_theme s ≠ Some "light" → data_theme s1 = Some "light")
  ∧ data_theme (toggleTheme (toggleTheme s1)) = data_theme s1
  ∧ theme_icon (toggleTheme (toggleTheme s1)) = theme_icon s1.
Proof.
  intros [shaking Hbtn] s1. subst s1. unfold toggleTheme, iconMatches.
  rewrite Hbtn. simpl.
  destruct (decide (data_theme s = Some "light")) as [Hlight|Hother]; simpl;
    destruct (theme_icon s); simpl; repeat split; try done; auto.
Qed.

(** X24. The theme survives a reload: a page that starts with the storage a
    toggle left behind is set up with the theme that toggle chose, and with
    its icon. A page with nothing saved, or the empty string, is set up
    [light]. *)
Theorem theme_persists (s s' : ThemePage) :
  is_Some (toggle_mode_btn s) →
  storedTheme s' = storedTheme (toggleTheme s) →
  data_theme (loadTheme s') = data_theme (toggleTheme s)
  ∧ iconMatches (loadTheme s')
  ∧ (is_Some (theme_icon s) → is_Some (theme_icon s') →
     theme_icon (loadTheme s') = theme_icon (toggleTheme s))
  ∧ (∀ s0, truthy (storedTheme s0) = None →
           data_theme (loadTheme s0) = Some "light").
Proof.
  intros [shaking Hbtn] Hstored. unfold loadTheme, toggleTheme, iconMatches in *.
  rewrite Hbtn in *. simpl in *. rewrite Hstored.
  split; [|split; [|split]].
  - by destruct (decide (data_theme s = Some "light")).
  - destruct (decide (data_theme s = Some "light")); simpl;
      by destruct (theme_icon s').
  - intros [i Hi] [i' Hi']. rewrite Hi, Hi'. simpl.
    by destruct (decide (data_theme s = Some "light")).
  - intros s0 Hnone. by rewrite Hnone.
Qed.

Lemma toggle_alternates_witness :
  data_theme
    (toggleTheme {| data_theme := Some "blue"; storedTheme := Some "blue";
                    theme_icon := Some "ri-sun-line";
                    toggle_mode_btn := Some false |})
  = Some "light".
Proof.
  destruct (toggle_alternates
              {| data_theme := Some "blue"; storedTheme := Some "blue";
                 theme_icon := Some "ri-sun-line";
                 toggle_mode_btn := Some false |})
    as (_ & _ & _ & _ & Hother & _); [by eexists|].
  apply Hother. discriminate.
Defined.

Lemma theme_persists_witness :
  data_theme
    (loadTheme {| data_theme := None; storedTheme := Some "dark";
                  theme_icon := Some "ri-sun-line";
                  toggle_mode_btn := Some false |})
  = Some "dark".
Proof.
  refine (proj1 (theme_persists
                   {| data_theme := Some "light"; storedTheme := None;
                      theme_icon := Some "ri-sun-line";
                      toggle_mode_btn := Some false |}
                   _ _ _)); [by eexists | reflexivity].
Defined.

(** ** The mobile menu *)

(** X25. After any event on the mobile menu the toggle shows the close icon
    exactly when the menu is open, and a followed link always leaves the
    menu closed, whatever happened before. *)
Theorem menu_icon_follows (n : Navbar) (evs : list NavEvent) (ev : NavEvent) :
  let n' := foldl navStep n (evs ++ [ev]) in
  navIcon n' = (if navActive n' then "ri-close-line" else "ri-menu-3-line")
  ∧ (ev = FollowLink → navActive n' = false)
  ∧ (ev = ToggleMenu → navActive n' = negb (navActive (foldl navStep n evs))).
Proof.
  intros n'. subst n'. rewrite foldl_app. simpl.
  destruct ev; simpl; repeat split; try done.
Qed.

(** ** Capitalizing *)

Lemma unitChecks_all c : unitChecks c = true.
Proof.
  destruct c as [[] [] [] [] [] [] [] []]; vm_compute; reflexivity.
Qed.

Lemma upperUnit_lower c u :
  upperUnit c = Some u → N_of_ascii c ≠ 223%N →
  ∃ a, u = String a ""
       ∧ lowerUnit a = lowerUnit c
       ∧ upperUnit a = Some (String a "").
Proof.
  intros Hu Hc. pose proof (unitChecks_all c) as Hcheck.
  unfold unitChecks in Hcheck. rewrite Hu in Hcheck.
  destruct (N_of_ascii c =? 223)%N eqn:Hs; [by apply N.eqb_eq in Hs|].
  destruct u as [|a [|b u]]; try done.
  apply andb_true_iff in Hcheck as [Hlow Hup].
  apply bool_decide_eq_true in Hlow, Hup. eauto.
Qed.

Lemma upperUnit_sharp_s c :
  N_of_ascii c = 223%N → upperUnit c = Some "SS".
Proof. intros Hc. unfold upperUnit. by rewrite Hc. Qed.

Lemma capitalize_capital a rest :
  upperUnit a = Some (String a "") →
  capitalize (Some (String a rest)) = Some (String a rest).
Proof. intros Ha. unfold capitalize. simpl. by rewrite Ha. Qed.

(** X26. [capitalize] gives the empty string for a missing or empty
    string. For any other string, when the capital of its first character
    is in the range, the result differs from the string only in the case of
    the first character: it has the same lowercase form and, the sharp s
    apart, the same length; and capitalizing it again changes nothing. *)
Theorem capitalize_first_only (str : option string) (r : string) :
  capitalize str = Some r →
  (truthy str = None → r = "")
  ∧ (∀ c rest, str = Some (String c rest) →
       capitalize (Some r) = Some r
       ∧ (N_of_ascii c ≠ 223%N →
          toLowerCase r = toLowerCase (String c rest)
          ∧ String.length r = String.length (String c rest))).
Proof.
  intros Hr. split.
  - intros Hnone. unfold capitalize in Hr. rewrite Hnone in Hr. congruence.
  - intros c rest ->. unfold capitalize in Hr. simpl in Hr.
    destruct (upperUnit c) as [u|] eqn:Hu; [|done].
    injection Hr as <-.
    destruct (decide (N_of_ascii c = 223%N)) as [Hs|Hs].
    + rewrite (upperUnit_sharp_s c Hs) in Hu. injection Hu as <-.
      split; [|done]. by apply (capitalize_capital "S"%char).
    + destruct (upperUnit_lower c u Hu Hs) as (a & -> & Hlow & Hup).
      split; [by apply capitalize_capital|]. intros _.
      simpl. by rewrite Hlow.
Qed.

Lemma capitalize_first_only_witness :
  capitalize (Some "Web") = Some "Web".
Proof.
  destruct (capitalize_first_only (Some "web") "Web" eq_refl) as [_ Hsome].
  destruct (Hsome "w"%char "eb" eq_refl) as [Hidem _]. exact Hidem.
Defined.

(** ** Events and the listed records *)

Section Composition.
Context `{Collator}.

(** X27. While no engine exists the search box filters nothing: whatever
    text is typed, the render that follows shows the same cards and the same
    page buttons. *)
Theorem search_needs_engine (st : App) (text text' : string) :
  visibilityEngine st = None →
  projects_container (document (dispatch st (TypeSearch text)))
  = projects_container (document (dispatch st (TypeSearch text')))
  ∧ pagination_controls (document (dispatch st (TypeSearch text)))
    = pagination_controls (document (dispatch st (TypeSearch text'))).
Proof.
  intros Hengine. simpl.
  destruct (project_search (document st)) as [old|]; [|done].
  unfold searchInputHandler.
  set (pre t := set_currentPage 1
                  (set_visibilityEngine
                     (Engine.setSearchQuery
                        (default "" (project_search
                           (document (set_document
                              (set_project_search (Some t) (document st)) st))))
                      <$> visibilityEngine
                            (set_document
                               (set_project_search (Some t) (document st)) st))
                     (set_document
                        (set_project_search (Some t) (document st)) st))).
  change (projects_container (document (renderProjects (pre text)))
          = projects_container (document (renderProjects (pre text')))
          ∧ pagination_controls (document (renderProjects (pre text)))
            = pagination_controls (document (renderProjects (pre text')))).
  assert (Hwork : workingArray (pre text) = workingArray (pre text')).
  { rewrite !workingArray_content; subst pre; simpl; rewrite ?Hengine; done. }
  assert (Hfound : containerFound (pre text) = containerFound (pre text'))
    by done.
  destruct (containerFound (pre text)) eqn:Hf.
  - destruct (renderProjects_document (pre text) Hf) as [-> _].
    destruct (renderProjects_document (pre text') (eq_sym Hfound)) as [-> _].
    unfold shownCards, shownControls. rewrite Hwork. done.
  - rewrite !renderProjects_not_found by done. done.
Qed.

(** X28. Choosing a sort mode goes back to page 1 and rearranges what is
    listed without adding or dropping a record: the working array of the
    next render holds the same records as before, so the number of pages is
    the same. *)
Theorem sort_change_keeps_records (st : App) (mode : string) :
  is_Some (arrays st !! allProjectsData st) →
  (∀ e, visibilityEngine st = Some e → is_Some (arrays st !! Engine.projects e)) →
  is_Some (project_sort (document st)) →
  let st' := dispatch st (ChooseSort mode) in
  currentSort st' = mode
  ∧ currentPage st' = 1
  ∧ workingArray st' ≡ₚ workingArray st
  ∧ ceilDiv (Z.of_nat (length (workingArray st'))) itemsPerPage
    = ceilDiv (Z.of_nat (length (workingArray st))) itemsPerPage.
Proof.
  intros Hstore Hengine [old Hsort] st'. subst st'. simpl. rewrite Hsort.
  unfold sortChangeHandler.
  match goal with |- context [renderProjects ?s] => set (pre := s) end.
  destruct (renderProjects_vars pre) as (Hpage & _ & Hmode & _).
  assert (Hwork : workingArray (renderProjects pre) ≡ₚ workingArray st).
  { rewrite workingArray_renderProjects by done.
    rewrite !workingArray_content by done.
    rewrite !sortItems_Permutation. done. }
  split; [by rewrite Hmode|]. split; [by rewrite Hpage|]. split; [done|].
  by rewrite Hwork.
Qed.

End Composition.

Lemma search_needs_engine_witness :
  projects_container
    (document (@dispatch codeUnitCollator galleryWithoutEngine (TypeSearch "zz")))
  = projects_container
      (document (@dispatch codeUnitCollator galleryWithoutEngine (TypeSearch ""))).
Proof.
  exact (proj1 (@search_needs_engine codeUnitCollator galleryWithoutEngine
                  "zz" "" eq_refl)).
Defined.

Lemma sort_change_keeps_records_witness :
  currentPage (@dispatch codeUnitCollator galleryWithoutEngine (ChooseSort "za"))
  = 1.
Proof.
  refine (proj1 (proj2 (@sort_change_keeps_records codeUnitCollator
                          galleryWithoutEngine "za" _ _ _))).
  - by eexists.
  - intros e; discriminate.
  - by eexists.
Defined.
